(** * toflite: chopper gating windows and masked readings

    A shallow embedding of [toflite/chopper.py], [toflite/reading.py]
    and the chopper list of [toflite/dashboard.py].

    Numeric conventions.  The Python code computes with IEEE binary64
    numbers ([float], [np.float64]).  [Chopper.open_close_times] is
    embedded twice.  Module [Chopper64] is the code as it runs: the
    numbers are Rocq's primitive binary64 floats, every operation
    rounds as the hardware does, and [math.ceil] fails on an infinity
    or a NaN.  Module [Chopper] is the same computation carried out in
    exact arithmetic: the numbers are reals, [np.pi] is [PI] and
    nothing is rounded; what is proved there of times holds of the
    formulas, and of the running code only up to rounding.  The
    construction of a chopper and the values of a reading are over
    the reals as well: what is proved of them are outcomes, orders and
    comparisons, in which rounding has no part.  Python integers are
    [Z]; array lengths and shapes are [nat]. *)

From Stdlib Require Import Floats Uint63 Ascii String DecimalString.
From Stdlib Require Import Reals Lra Lia ZArith Bool List.
Import ListNotations.

(** ** Exceptions and fallible computations *)

Inductive exception : Type :=
| ValueError
| IndexError
| TypeError.

Inductive result (A : Type) : Type :=
| Ok (a : A)
| Raise (e : exception).

Arguments Ok {A} a.
Arguments Raise {A} e.

Definition bind {A B : Type} (r : result A) (k : A -> result B) : result B :=
  match r with
  | Ok a => k a
  | Raise e => Raise e
  end.

Notation "x <- r ;; k" := (bind r (fun x => k))
  (at level 61, r at next level, right associativity).

(** ** [numpy] helpers on one-dimensional arrays *)

(** [np.arange(start, stop)] for integers. *)
Definition arange (start stop : Z) : list Z :=
  map (fun i => (start + Z.of_nat i)%Z) (seq 0 (Z.to_nat (stop - start))).

Open Scope R_scope.

(** [np.deg2rad(x)] is [x * (pi / 180)]. *)
Definition deg2rad (x : R) : R := x * (PI / 180).

(** [(col.reshape(-1, 1) + row).ravel()]: the broadcast sum of a column
    and a row, flattened in row-major order. *)
Definition outer_add_ravel (col row : list R) : list R :=
  flat_map (fun p => map (fun a => p + a) row) col.

(** ** [chopper.py] in exact arithmetic

    The formulas of [chopper.py] read over the real numbers: [np.pi] is
    [PI], [math.ceil] the ceiling of the exact product, and no
    operation rounds.  Lengths, orders and the outcome of the
    construction do not depend on rounding; times do, and module
    [Chopper64] computes them as the code does. *)

Module Chopper.

Inductive Direction : Type :=
| CLOCKWISE
| ANTICLOCKWISE.

Definition Clockwise := CLOCKWISE.
Definition AntiClockwise := ANTICLOCKWISE.

Definition Direction_eqb (a b : Direction) : bool :=
  match a, b with
  | CLOCKWISE, CLOCKWISE => true
  | ANTICLOCKWISE, ANTICLOCKWISE => true
  | _, _ => false
  end.

(** The attributes that [Chopper.__init__] stores. *)
Record Chopper : Type := mkChopper {
  frequency : R;
  distance : R;
  name : string;
  phase : R;
  open : list R;
  close : list R;
  direction : Direction
}.

(** [Chopper.omega] *)
Definition omega (self : Chopper) : R := 2 * PI * frequency self.

(** [nrot] as written on the first line of [open_close_times], the
    product and its ceiling being exact. *)
Definition nrot (self : Chopper) (time_limit : R) : Z :=
  Z.max (Zceil (time_limit * 1.0e-6 * frequency self)) 1.

(** The column of rotation phases, before its reshape. *)
Definition phases (self : Chopper) (time_limit : R) : list R :=
  map (fun k => IZR k * 2 * PI + deg2rad (phase self))
      (arange (-1) (nrot self time_limit)).

(** The cutout angles in radians, mirrored for an anti-clockwise chopper. *)
Definition cutout_angles (self : Chopper) : list R * list R :=
  let open_times := map deg2rad (open self) in
  let close_times := map deg2rad (close self) in
  if Direction_eqb (direction self) AntiClockwise
  then (rev (map (fun c => 2 * PI - c) close_times),
        rev (map (fun o => 2 * PI - o) open_times))
  else (open_times, close_times).

(** [Chopper.open_close_times], every operation being exact. *)
Definition open_close_times (self : Chopper) (time_limit : R)
  : list R * list R :=
  let phases := phases self time_limit in
  let '(open_times, close_times) := cutout_angles self in
  (map (fun x => x * 1.0e6 / omega self) (outer_add_ravel phases open_times),
   map (fun x => x * 1.0e6 / omega self) (outer_add_ravel phases close_times)).

(** *** Construction

    [Chopper.__init__] receives each of [open], [close], [centers] and
    [widths] as [None] or as an array object, and tests which of them
    were given by a tuple membership, which compares with [is] first
    and with [==] next. *)

(** A one-dimensional [numpy] array passed as an argument: its identity
    and entries.  Arguments of other types are not of this type: a
    Python list given as [centers] or [widths] compares and multiplies
    in another way ([None == list] is [False], [list * 0.5] is a
    [TypeError]). *)
Record array_arg : Type := mkArg {
  addr : nat;
  elems : list R
}.

(** The [direction] argument: a member of [Direction] or any other
    object. *)
Inductive direction_arg : Type :=
| Member (d : Direction)
| NotADirection.

(** [x is not None] *)
Definition is_some (x : option array_arg) : bool :=
  match x with Some _ => true | None => false end.

(** [x is y] *)
Definition is_ (x y : option array_arg) : bool :=
  match x, y with
  | None, None => true
  | Some a, Some b => Nat.eqb (addr a) (addr b)
  | _, _ => false
  end.

(** [x == y] on two numbers. *)
Definition Req_bool (x y : R) : bool :=
  if Req_dec_T x y then true else false.

(** An entry-wise operation on two one-dimensional arrays, with numpy's
    broadcasting of an array of one entry; [None] when the shapes do
    not broadcast. *)
Definition broadcast {B : Type} (f : R -> R -> B) (x y : list R)
  : option (list B) :=
  if Nat.eqb (length x) (length y)
  then Some (map (fun p => f (fst p) (snd p)) (combine x y))
  else match x, y with
       | [a], _ => Some (map (f a) y)
       | _, [b] => Some (map (fun a => f a b) x)
       | _, _ => None
       end.

(** Exactly one of the two representations of the cutouts is given. *)
Definition exactly_one (open close centers widths : option array_arg)
  : Prop :=
  (is_some open = true /\ is_some close = true
   /\ centers = None /\ widths = None)
  \/ (open = None /\ close = None
      /\ is_some centers = true /\ is_some widths = true).

Section Construction.

(** Two outcomes differ between numpy versions and are parameters.
    [bool(a)] for an array without entries is [False], with a
    deprecation warning, up to NumPy 2.1 and a [ValueError] since
    ([strict_empty]).  [bool(a == b)] for two arrays whose shapes do
    not broadcast is [False], with a deprecation warning, up to
    NumPy 1.24 and a [ValueError] since ([strict_shapes]). *)
Variable strict_empty : bool.
Variable strict_shapes : bool.

Definition empty_truth : result bool :=
  if strict_empty then Raise ValueError else Ok false.

Definition mismatch_eq : result bool :=
  if strict_shapes then Raise ValueError else Ok false.

(** [bool(a)] for a boolean array: only an array of one entry has a
    truth value. *)
Definition truth (l : list bool) : result bool :=
  match l with
  | [] => empty_truth
  | [b] => Ok b
  | _ :: _ :: _ => Raise ValueError
  end.

(** [PyObject_RichCompareBool(x, y, Py_EQ)]: identity, else the truth
    value of [x == y], which numpy evaluates entry by entry, also
    against [None]. *)
Definition rich_eq (x y : option array_arg) : result bool :=
  if is_ x y then Ok true
  else match x, y with
       | None, None => Ok true
       | None, Some a | Some a, None =>
           truth (map (fun _ => false) (elems a))
       | Some a, Some b =>
           match broadcast Req_bool (elems a) (elems b) with
           | Some l => truth l
           | None => mismatch_eq
           end
       end.

(** [v == w] for two tuples: the first pair of items that differ
    decides, else the lengths do. *)
Fixpoint tuple_eq (v w : list (option array_arg)) : result bool :=
  match v, w with
  | [], [] => Ok true
  | x :: v', y :: w' =>
      b <- rich_eq x y ;;
      if b then tuple_eq v' w' else Ok false
  | _, _ => Ok false
  end.

(** [x in container] for a tuple of tuples. *)
Fixpoint tuple_in (x : list (option array_arg))
         (container : list (list (option array_arg))) : result bool :=
  match container with
  | [] => Ok false
  | item :: rest =>
      b <- tuple_eq item x ;;
      if b then Ok true else tuple_in x rest
  end.

(** [tuple(x for x in args if x is not None)] *)
Definition given (args : list (option array_arg))
  : list (option array_arg) :=
  filter is_some args.

(** An arithmetic operation on two arrays; shapes that do not
    broadcast raise [ValueError]. *)
Definition arith (f : R -> R -> R) (x y : list R) : result (list R) :=
  match broadcast f x y with
  | Some l => Ok l
  | None => Raise ValueError
  end.

(** [Chopper.__init__] *)
Definition __init__ (frequency distance : R) (name : string) (phase : R)
           (open close centers widths : option array_arg)
           (direction : direction_arg) : result Chopper :=
  if Rle_dec frequency 0 then Raise ValueError
  else
    match direction with
    | NotADirection => Raise ValueError
    | Member d =>
        b <- tuple_in (given [open; close; centers; widths])
                      [[open; close]; [centers; widths]] ;;
        if negb b then Raise ValueError
        else
          oc <- match open with
                | None =>
                    match centers, widths with
                    | Some c, Some w =>
                        let half_width :=
                          map (fun x => x * 0.5) (elems w) in
                        o <- arith Rminus (elems c) half_width ;;
                        c' <- arith Rplus (elems c) half_width ;;
                        Ok (o, c')
                    | _, _ =>
                        (* arithmetic on [None]; not reached, see
                           [membership_passed] *)
                        Raise TypeError
                    end
                | Some o =>
                    match close with
                    | Some c => Ok (elems o, elems c)
                    | None =>
                        (* [close] is [None]; not reached, see
                           [membership_passed] *)
                        Raise TypeError
                    end
                end ;;
          Ok (mkChopper frequency distance name phase
                        (fst oc) (snd oc) d)
    end.

End Construction.

(** Functional updates of a stored attribute (the same chopper built
    with another [phase] or [direction] argument). *)
Definition with_phase (self : Chopper) (p : R) : Chopper :=
  mkChopper (frequency self) (distance self) (name self) p
            (open self) (close self) (direction self).



(** How far apart two sequences of times are, entry by entry. *)
Definition within (tol : R) (l l' : list R) : Prop :=
  Forall2 (fun x y => Rabs (x - y) < tol) l l'.

(** The construction invariants of a chopper. *)
Definition invariants (self : Chopper) : Prop :=
  0 < frequency self /\ length (open self) = length (close self).

End Chopper.

(** ** [chopper.py] in binary64 *)

Module Chopper64.
Import Chopper.
Open Scope float_scope.

(** [np.pi], the binary64 number nearest to pi. *)
Definition pi : float := 0x1.921fb54442d18p+1.

(** The literals [1.0e-6] and [1.0e6] as the binary64 numbers that
    Python reads them as. *)
Definition millionth : float := 0x1.0c6f7a0b5ed8dp-20.
Definition million : float := 1000000.

(** An integer as a binary64 number (for integers below [2^63] in
    magnitude, which is what an [int64] array holds). *)
Definition of_int (z : Z) : float :=
  match z with
  | Z0 => 0
  | Zpos _ => of_uint63 (Uint63.of_Z z)
  | Zneg p => - of_uint63 (Uint63.of_Z (Zpos p))
  end.

(** A number, as opposed to an infinity or a NaN. *)
Definition is_number (x : float) : bool :=
  match Prim2SF x with
  | S754_zero _ | S754_finite _ _ _ => true
  | S754_infinity _ | S754_nan => false
  end.

(** [int(math.ceil(x))]: the least integer not below [x]; [None] when
    [math.ceil] raises, which it does on an infinity ([OverflowError])
    and on a NaN ([ValueError]). *)
Definition ceil (x : float) : option Z :=
  match Prim2SF x with
  | S754_zero _ => Some 0%Z
  | S754_finite s m e =>
      (* the number is [(-1)^s * m * 2^e] *)
      if (0 <=? e)%Z
      then Some (if s then - (Zpos m * 2 ^ e) else Zpos m * 2 ^ e)%Z
      else Some (if s then - (Zpos m / 2 ^ (- e))
                 else - (- Zpos m / 2 ^ (- e)))%Z
  | S754_infinity _ | S754_nan => None
  end.

(** [np.deg2rad(x)] is [x * (pi / 180)], the factor rounded once. *)
Definition deg2rad (x : float) : float := x * (pi / 180).

(** [(col.reshape(-1, 1) + row).ravel()] *)
Definition outer_add_ravel (col row : list float) : list float :=
  flat_map (fun p => map (fun a => p + a) row) col.

(** The attributes that [Chopper.__init__] stores. *)
Record Chopper : Type := mkChopper {
  frequency : float;
  distance : float;
  name : string;
  phase : float;
  open : list float;
  close : list float;
  direction : Direction
}.

(** [Chopper.omega]: [2 * np.pi * self.frequency] *)
Definition omega (self : Chopper) : float := 2 * pi * frequency self.

(** [nrot = max(int(math.ceil(time_limit * 1.0e-6 * self.frequency)), 1)] *)
Definition nrot (self : Chopper) (time_limit : float) : option Z :=
  match ceil (time_limit * millionth * frequency self) with
  | Some z => Some (Z.max z 1)
  | None => None
  end.

(** [np.arange(-1, nrot) * 2 * np.pi + np.deg2rad(self.phase)]: the
    integers are doubled as integers and then multiplied by [np.pi]. *)
Definition phases (self : Chopper) (n : Z) : list float :=
  map (fun k => of_int (k * 2) * pi + deg2rad (phase self))
      (arange (-1) n).

(** The cutout angles in radians, mirrored for an anti-clockwise
    chopper. *)
Definition cutout_angles (self : Chopper) : list float * list float :=
  let open_times := map deg2rad (open self) in
  let close_times := map deg2rad (close self) in
  if Direction_eqb (direction self) AntiClockwise
  then (rev (map (fun c => 2 * pi - c) close_times),
        rev (map (fun o => 2 * pi - o) open_times))
  else (open_times, close_times).

(** [(phases + angles).ravel() * 1.0e6 / self.omega] *)
Definition to_times (self : Chopper) (phases angles : list float)
  : list float :=
  map (fun x => x * million / omega self) (outer_add_ravel phases angles).

(** [Chopper.open_close_times]; [None] when [math.ceil] raises.  The
    memory that [np.arange] needs for a very large [nrot] is not
    accounted for. *)
Definition open_close_times (self : Chopper) (time_limit : float)
  : option (list float * list float) :=
  match nrot self time_limit with
  | None => None
  | Some n =>
      let phases := phases self n in
      let '(open_times, close_times) := cutout_angles self in
      Some (to_times self phases open_times,
            to_times self phases close_times)
  end.

(** The same chopper with another phase. *)
Definition with_phase (self : Chopper) (p : float) : Chopper :=
  mkChopper (frequency self) (distance self) (name self) p
            (open self) (close self) (direction self).

(** The construction invariants of a chopper: the frequency is a
    positive number, and the cutouts have as many opening as closing
    angles. *)
Definition invariants (self : Chopper) : Prop :=
  is_number (frequency self) = true
  /\ PrimFloat.ltb 0 (frequency self) = true
  /\ length (open self) = length (close self).

(** *** Example choppers *)

(** A chopper at 7 Hz with two cutouts. *)
Definition seven_hertz : Chopper :=
  mkChopper 7 10 "chopper" 0 [0; 90] [10; 100] Clockwise.



(** A chopper at 100 Hz with one cutout from -18 to 18 degrees. *)
Definition wide_cutout (d : Direction) : Chopper :=
  mkChopper 100 10 "chopper" 0 [-18] [18] d.

(** A chopper at 14 Hz with one cutout from -5 to 5 degrees. *)
Definition symmetric_cutout (d : Direction) : Chopper :=
  mkChopper 14 10 "chopper" 0 [-5] [5] d.

End Chopper64.

(** ** [numpy] arrays of any dimension

    An array is its shape and its entries in row-major order.  The
    operations below are the ones [reading.py] and
    [ChopperReading._repr_stats] apply to arrays of one common shape;
    where numpy would broadcast two different shapes the model raises,
    and every statement further down is about arrays of one shape. *)

Module NDArray.

Record ndarray (A : Type) : Type := mkArray {
  shape : list nat;
  data : list A
}.

Arguments mkArray {A} shape data.
Arguments shape {A} _.
Arguments data {A} _.

(** [a.size]: the number of entries that the shape announces. *)
Definition size_of (s : list nat) : nat := fold_right Nat.mul 1%nat s.
Definition size {A : Type} (a : ndarray A) : nat := size_of (shape a).

(** The entries fill the shape. *)
Definition wf {A : Type} (a : ndarray A) : Prop :=
  length (data a) = size a.

Definition shape_eqb (s t : list nat) : bool :=
  if list_eq_dec Nat.eq_dec s t then true else false.

(** [a | b] on boolean arrays. *)
Definition bitwise_or (a b : ndarray bool) : result (ndarray bool) :=
  if shape_eqb (shape a) (shape b)
  then Ok (mkArray (shape a)
                   (map (fun xy => orb (fst xy) (snd xy))
                        (combine (data a) (data b))))
  else Raise ValueError.

(** [~a] on a boolean array. *)
Definition invert (a : ndarray bool) : ndarray bool :=
  mkArray (shape a) (map negb (data a)).

(** [a[mask]] for a boolean [mask] of the shape of [a]: the selected
    entries, as a one-dimensional array. *)
Definition select {A : Type} (a : ndarray A) (mask : ndarray bool)
  : result (ndarray A) :=
  if shape_eqb (shape a) (shape mask)
  then let sel := map fst (filter snd (combine (data a) (data mask))) in
       Ok (mkArray [length sel] sel)
  else Raise IndexError.

(** [a.min()] and [a.max()]: a reduction over no entry at all raises
    [ValueError]. *)
Definition amin (a : ndarray R) : result R :=
  match data a with
  | [] => Raise ValueError
  | x :: l => Ok (fold_left Rmin l x)
  end.

Definition amax (a : ndarray R) : result R :=
  match data a with
  | [] => Raise ValueError
  | x :: l => Ok (fold_left Rmax l x)
  end.

(** [a.sum()] on a boolean array: the number of [True] entries. *)
Definition sum (a : ndarray bool) : Z :=
  Z.of_nat (length (filter (fun b => b) (data a))).

(** *** Basic indexing along the first axis *)

Inductive key : Type :=
| Index (i : Z)
| Slice (start stop step : option Z).

(** [numpy] converts an integer key to the C type [npy_intp], of 64
    bits.  An integer that does not fit is rejected by that conversion
    before any bound is tested; [getitem] describes the keys that
    fit. *)
Definition fits_intp (k : key) : Prop :=
  match k with
  | Index i => (- 2 ^ 63 <= i < 2 ^ 63)%Z
  | Slice _ _ _ => True
  end.

(** [slice(start, stop, step).indices(n)] *)
Definition slice_indices (n : Z) (start stop step : option Z)
  : result (Z * Z * Z) :=
  let step := match step with None => 1%Z | Some s => s end in
  if (step =? 0)%Z then Raise ValueError
  else
    let lower := if (step <? 0)%Z then (-1)%Z else 0%Z in
    let upper := if (step <? 0)%Z then (n - 1)%Z else n in
    let clamp := fun v =>
      if (v <? 0)%Z then Z.max (v + n) lower else Z.min v upper in
    let start := match start with
                 | None => if (step <? 0)%Z then upper else lower
                 | Some v => clamp v
                 end in
    let stop := match stop with
                | None => if (step <? 0)%Z then lower else upper
                | Some v => clamp v
                end in
    Ok (start, stop, step).

(** The number of indices of a normalised slice. *)
Definition slice_length (start stop step : Z) : nat :=
  if (step <? 0)%Z
  then if (stop <? start)%Z
       then Z.to_nat ((start - stop - 1) / (- step) + 1)
       else 0%nat
  else if (start <? stop)%Z
       then Z.to_nat ((stop - start - 1) / step + 1)
       else 0%nat.

(** The [i]-th block of [stride] entries. *)
Definition row {A : Type} (stride i : nat) (l : list A) : list A :=
  firstn stride (skipn (i * stride) l).

(** [a[k]] for an integer or a slice [k]. *)
Definition getitem {A : Type} (a : ndarray A) (k : key)
  : result (ndarray A) :=
  match shape a with
  | [] => Raise IndexError
  | n :: rest =>
      let stride := size_of rest in
      match k with
      | Index i =>
          if ((- Z.of_nat n <=? i) && (i <? Z.of_nat n))%Z
          then let j := if (i <? 0)%Z then (i + Z.of_nat n)%Z else i in
               Ok (mkArray rest (row stride (Z.to_nat j) (data a)))
          else Raise IndexError
      | Slice start stop step =>
          idx <- slice_indices (Z.of_nat n) start stop step ;;
          let '(start, stop, step) := idx in
          let len := slice_length start stop step in
          Ok (mkArray (len :: rest)
                (flat_map
                   (fun i => row stride
                               (Z.to_nat (start + Z.of_nat i * step))
                               (data a))
                   (seq 0 len)))
      end
  end.

End NDArray.

(** ** [reading.py] *)

Module Reading.
Import NDArray.

Record ReadingField : Type := mkReadingField {
  name : string;
  unit : string;
  values : ndarray R;
  blocked_by_me : ndarray bool;
  blocked_by_others : ndarray bool
}.

(** [self.values[~(self.blocked_by_me | self.blocked_by_others)]] *)
Definition visible (self : ReadingField) : result (ndarray R) :=
  mask <- bitwise_or (blocked_by_me self) (blocked_by_others self) ;;
  select (values self) (invert mask).

(** [ReadingField.min] *)
Definition min (self : ReadingField) : result R :=
  coord <- visible self ;; amin coord.

(** [ReadingField.max] *)
Definition max (self : ReadingField) : result R :=
  coord <- visible self ;; amax coord.

(** What [ReadingField.__repr__] formats into its string:
    ["{name} [{unit}]: min={min}, max={max}, events={events}"]. *)
Record field_repr : Type := mkFieldRepr {
  repr_name : string;
  repr_unit : string;
  repr_min : R;
  repr_max : R;
  repr_events : nat
}.

(** [ReadingField.__repr__] *)
Definition __repr__ (self : ReadingField) : result field_repr :=
  coord <- visible self ;;
  lo <- amin coord ;;
  hi <- amax coord ;;
  Ok (mkFieldRepr (name self) (unit self) lo hi (size coord)).

(** [ReadingField.__getitem__] *)
Definition __getitem__ (self : ReadingField) (val : key)
  : result ReadingField :=
  v <- getitem (values self) val ;;
  m <- getitem (blocked_by_me self) val ;;
  o <- getitem (blocked_by_others self) val ;;
  Ok (mkReadingField (name self) (unit self) v m o).

(** The three arrays of a field have one shape, and their entries fill
    it. *)
Definition aligned (self : ReadingField) : Prop :=
  shape (values self) = shape (blocked_by_me self)
  /\ shape (blocked_by_me self) = shape (blocked_by_others self).

Definition well_formed (self : ReadingField) : Prop :=
  aligned self
  /\ wf (values self) /\ wf (blocked_by_me self)
  /\ wf (blocked_by_others self).

(** The values of the entries that neither mask blocks, in order. *)
Definition unblocked (self : ReadingField) : list R :=
  map fst
    (filter (fun vmo => negb (fst (snd vmo)) && negb (snd (snd vmo)))
       (combine (data (values self))
          (combine (data (blocked_by_me self))
                   (data (blocked_by_others self))))).

(** Every entry is blocked by at least one of the two masks. *)
Definition all_blocked (self : ReadingField) : Prop :=
  forall i : nat,
    (i < size (values self))%nat ->
    nth i (data (blocked_by_me self)) false = true
    \/ nth i (data (blocked_by_others self)) false = true.

Definition is_minimum (m : R) (l : list R) : Prop :=
  In m l /\ forall y, In y l -> m <= y.

Definition is_maximum (m : R) (l : list R) : Prop :=
  In m l /\ forall y, In y l -> y <= m.

(** The field of the specification's example. *)
Definition example_field : ReadingField :=
  mkReadingField "toa" "us"
    (mkArray [4%nat] [1; 2; 3; 4])
    (mkArray [4%nat] [false; false; true; false])
    (mkArray [4%nat] [false; true; false; false]).

(** *** [ComponentReading] and [ChopperReading] *)

(** Modelled from the spec: [NeutronData] is declared in [utils.py],
    which is not among the sources.  Of it the code uses the four
    per-neutron fields and the two masks, which every field of a
    reading shares. *)
Record NeutronData : Type := mkNeutronData {
  toa : ndarray R;
  wavelength : ndarray R;
  birth_time : ndarray R;
  speed : ndarray R;
  data_blocked_by_me : ndarray bool;
  data_blocked_by_others : ndarray bool
}.

(** Modelled from the spec: [NeutronData.size], the total number of
    neutrons, which is the number of entries of each of its arrays. *)
Definition data_size (d : NeutronData) : Z := Z.of_nat (size (toa d)).

(** [_make_reading_field], with [getattr(data, field)] as a selector. *)
Definition _make_reading_field (d : NeutronData)
           (field : string) (getattr : NeutronData -> ndarray R)
           (unit : string) : ReadingField :=
  mkReadingField field unit (getattr d)
                 (data_blocked_by_me d) (data_blocked_by_others d).

(** [ComponentReading.toa] *)
Definition reading_toa (d : NeutronData) : ReadingField :=
  _make_reading_field d "toa" toa "μs".

(** The fields of [ChopperReading]. *)
Record ChopperReading : Type := mkChopperReading {
  cr_distance : R;
  cr_name : string;
  cr_frequency : R;
  cr_open : list R;
  cr_close : list R;
  cr_phase : R;
  cr_open_times : list R;
  cr_close_times : list R;
  cr_data : NeutronData
}.

(** [str(n)] for an integer. *)
Definition str (z : Z) : string := NilZero.string_of_int (Z.to_int z).

(** The two numbers that [ChopperReading._repr_stats] prints. *)
Definition stats_blocked (self : ChopperReading) : Z :=
  (sum (data_blocked_by_me (cr_data self))
   + sum (data_blocked_by_others (cr_data self)))%Z.

Definition stats_visible (self : ChopperReading) : Z :=
  (data_size (cr_data self) - stats_blocked self)%Z.

(** [ChopperReading._repr_stats] *)
Definition _repr_stats (self : ChopperReading) : string :=
  let neutrons := data_size (cr_data self) in
  let blocked := stats_blocked self in
  ("visible=" ++ str (neutrons - blocked)
   ++ ", blocked=" ++ str blocked)%string.

(** The number of neutrons that at least one mask blocks. *)
Definition union_count (d : NeutronData) : Z :=
  Z.of_nat
    (length
       (filter (fun mo => fst mo || snd mo)
          (combine (data (data_blocked_by_me d))
                   (data (data_blocked_by_others d))))).

Definition data_well_formed (d : NeutronData) : Prop :=
  well_formed (reading_toa d).

(** A reading with two neutrons, the first blocked by the chopper and
    by another component as well, the second blocked by none. *)
Definition twice_blocked : ChopperReading :=
  let me := mkArray [2%nat] [true; false] in
  let others := mkArray [2%nat] [true; false] in
  let field := mkArray [2%nat] [1; 2] in
  mkChopperReading 10 "chopper" 14 [0] [10] 0 [0] [1]
    (mkNeutronData field field field field me others).

End Reading.

(** ** When [centers] and [widths] can be used *)

Module ConstructionSpec.

(** The [centers] array passes the membership test of
    [Chopper.__init__] and combines with [widths]: it has one entry,
    or, where numpy still gives an empty array a truth value, no entry
    and [widths] at most one. *)
Definition centers_usable (strict_empty : bool) (c w : list R) : Prop :=
  length c = 1%nat
  \/ (c = [] /\ strict_empty = false /\ (length w <= 1)%nat).

End ConstructionSpec.

(** ** The other fields of a reading, and what indexing selects *)

Module ReadingSpec.
Import NDArray Reading.

(** [ComponentReading.wavelength] *)
Definition reading_wavelength (d : NeutronData) : ReadingField :=
  _make_reading_field d "wavelength" wavelength "Å".

(** [ComponentReading.birth_time] *)
Definition reading_birth_time (d : NeutronData) : ReadingField :=
  _make_reading_field d "birth_time" birth_time "μs".

(** [ComponentReading.speed] *)
Definition reading_speed (d : NeutronData) : ReadingField :=
  _make_reading_field d "speed" speed "m/s".

(** The four fields of a reading. *)
Definition fields (d : NeutronData) : list ReadingField :=
  [reading_toa d; reading_wavelength d; reading_birth_time d;
   reading_speed d].

(** The arrays of a reading have one shape and are filled. *)
Definition data_aligned (d : NeutronData) : Prop :=
  Forall well_formed (fields d).

(** The number of neutrons that both masks block. *)
Definition intersection_count (d : NeutronData) : Z :=
  Z.of_nat
    (length
       (filter (fun mo => fst mo && snd mo)
          (combine (data (data_blocked_by_me d))
                   (data (data_blocked_by_others d))))).

(** The outcome of [a[k]] as far as the shape of [a] decides it: the
    exception, or the shape of the result. *)
Definition getitem_shape (s : list nat) (k : key) : result (list nat) :=
  match s with
  | [] => Raise IndexError
  | n :: rest =>
      match k with
      | Index i =>
          if ((- Z.of_nat n <=? i) && (i <? Z.of_nat n))%Z
          then Ok rest
          else Raise IndexError
      | Slice start stop step =>
          idx <- slice_indices (Z.of_nat n) start stop step ;;
          let '(start, stop, step) := idx in
          Ok (slice_length start stop step :: rest)
      end
  end.

(** The positions, in the row-major entries of an array of shape [s],
    of the entries that [a[k]] selects, in the order of the result. *)
Definition positions (s : list nat) (k : key) : list nat :=
  match s with
  | [] => []
  | n :: rest =>
      let stride := size_of rest in
      match k with
      | Index i =>
          let j := if (i <? 0)%Z then (i + Z.of_nat n)%Z else i in
          seq (Z.to_nat j * stride) stride
      | Slice start stop step =>
          match slice_indices (Z.of_nat n) start stop step with
          | Ok (start, stop, step) =>
              flat_map
                (fun i => seq (Z.to_nat (start + Z.of_nat i * step) * stride)
                              stride)
                (seq 0 (slice_length start stop step))
          | Raise _ => []
          end
      end
  end.

End ReadingSpec.

(** ** [dashboard.py]: the choppers that [TofWidget.run] builds *)

Module Dashboard.
Import Chopper.

(** The values of the widgets of a [ChopperWidget] that [run] reads. *)
Record ChopperWidget : Type := mkChopperWidget {
  frequency_widget : R;
  open_widget : string;
  close_widget : string;
  phase_widget : R;
  distance_widget : R;
  name_widget : string;
  direction_widget : string;
  enabled_widget : bool
}.

(** What can go wrong: an exception of the kinds met so far, or the
    [KeyError] of a dictionary. *)
Inductive failure : Type :=
| Exc (e : exception)
| KeyError.

Inductive outcome (A : Type) : Type :=
| Done (a : A)
| Failed (f : failure).

Arguments Done {A} a.
Arguments Failed {A} f.

Definition of_result {A : Type} (r : result A) : outcome A :=
  match r with
  | Ok a => Done a
  | Raise e => Failed (Exc e)
  end.

Definition and_then {A B : Type} (o : outcome A) (k : A -> outcome B)
  : outcome B :=
  match o with
  | Done a => k a
  | Failed f => Failed f
  end.

(** A list comprehension whose element expression may raise: the
    first failure ends it. *)
Fixpoint comprehension {A B : Type} (f : A -> outcome B) (l : list A)
  : outcome (list B) :=
  match l with
  | [] => Done []
  | x :: l' =>
      and_then (f x) (fun y =>
      and_then (comprehension f l') (fun ys => Done (y :: ys)))
  end.

(** [s.split(",")] *)
Fixpoint split_comma (s : string) : list string :=
  match s with
  | EmptyString => [EmptyString]
  | String c rest =>
      if Ascii.eqb c ","%char
      then EmptyString :: split_comma rest
      else match split_comma rest with
           | [] => [String c EmptyString]
           | h :: t => String c h :: t
           end
  end.

(** [{"clockwise": Clockwise, "anti-clockwise": AntiClockwise}[key]] *)
Definition direction_of (key : string) : outcome Direction :=
  if String.eqb key "clockwise" then Done Clockwise
  else if String.eqb key "anti-clockwise" then Done AntiClockwise
  else Failed KeyError.

Section Run.

(** The numpy versions (see [Chopper.__init__]) and [float(v)] on a
    string, which raises [ValueError] on what is not a number. *)
Variables strict_empty strict_shapes : bool.
Variable float : string -> result R.

(** [[float(v) for v in text.split(",")]] *)
Definition floats (text : string) : outcome (list R) :=
  comprehension (fun v => of_result (float v)) (split_comma text).

(** The [Chopper(...)] call of [run] for one widget; the arguments are
    evaluated in the order in which they are written, and the two
    lists are two new objects. *)
Definition chopper_of (ch : ChopperWidget) : outcome Chopper :=
  and_then (floats (open_widget ch)) (fun open =>
  and_then (floats (close_widget ch)) (fun close =>
  and_then (direction_of (direction_widget ch)) (fun direction =>
  of_result
    (__init__ strict_empty strict_shapes
       (frequency_widget ch) (distance_widget ch) (name_widget ch)
       (phase_widget ch)
       (Some (mkArg 0 open)) (Some (mkArg 1 close)) None None
       (Member direction))))).

(** The [choppers] list of [run]: one chopper per enabled widget. *)
Definition run_choppers (children : list ChopperWidget)
  : outcome (list Chopper) :=
  comprehension chopper_of (filter enabled_widget children).

End Run.

End Dashboard.

(** ** Lemmas on the helpers *)

(** The decimal literal [1.0e6] as an integer, for [field]. *)
Lemma lit_1e6 : 1.0e6 = 1000000.
Proof. lra. Qed.









Section Forall2_facts.
Context {A B : Type} (P : A -> B -> Prop).



End Forall2_facts.


Module ChopperFacts.
Import Chopper.


Ltac real_list :=
  repeat (apply (f_equal2 (@cons R));
          [unfold deg2rad; rewrite ?lit_1e6; field; lra|]);
  reflexivity.


Lemma nrot_zero (self : Chopper) : nrot self 0 = 1%Z.
Proof.
  unfold nrot.
  replace (0 * 1.0e-6 * frequency self) with (IZR 0) by lra.
  rewrite (Zceil_eq 0 (IZR 0)) by lra. reflexivity.
Qed.












(** *** The 100 Hz scenario *)

Lemma scenario_open_times (d : R) (n : string) :
  let ch := mkChopper 100 d n 0 [0] [10] Clockwise in
  fst (open_close_times ch 0) = [-10000; 0].
Proof.
  intro ch. unfold open_close_times, phases.
  rewrite nrot_zero. unfold omega, deg2rad. simpl.
  pose proof PI_RGT_0. real_list.
Qed.

(** C6, as stated, fails: the opening times of the scenario are not
    within 5000 microseconds of [-5000, 0]. *)
Lemma scenario_not_minus_5000 :
  ~ within 5000
      (fst (open_close_times (mkChopper 100 1 "c" 0 [0] [10] Clockwise) 0))
      [-5000; 0].
Proof.
  rewrite scenario_open_times. intro H.
  inversion H as [|x y l l' Hxy _]; subst.
  replace (-10000 - -5000) with (- (5000)) in Hxy by lra.
  rewrite Rabs_Ropp, Rabs_right in Hxy; lra.
Qed.

(** C6, amended: for frequency 100 Hz, phase 0, Clockwise and one cutout
    from 0 to 10 degrees, [omega = 200 * pi] and [open_close_times 0]
    opens at exactly [-10000] and [0] microseconds, which are
    [angle * 1e6 / omega] for the rotation offsets [-2 * pi] and [0]. *)
Theorem scenario_100Hz (d : R) (n : string) :
  let ch := mkChopper 100 d n 0 [0] [10] Clockwise in
  omega ch = 200 * PI
  /\ fst (open_close_times ch 0) = [-10000; 0]
  /\ fst (open_close_times ch 0)
     = [(-2 * PI) * 1.0e6 / omega ch; 0 * 1.0e6 / omega ch]
  /\ snd (open_close_times ch 0)
     = [(-2 * PI + deg2rad 10) * 1.0e6 / omega ch;
        (0 + deg2rad 10) * 1.0e6 / omega ch].
Proof.
  intro ch. pose proof PI_RGT_0.
  split; [unfold omega; simpl; lra|].
  split; [apply scenario_open_times|].
  split.
  - unfold ch. rewrite scenario_open_times. unfold omega; simpl.
    real_list.
  - unfold open_close_times, phases.
    rewrite nrot_zero. unfold omega, deg2rad. simpl.
    real_list.
Qed.

(** *** One cutout, symmetric about 0 degrees *)







End ChopperFacts.

(** ** Facts on the construction of a chopper *)

Module ConstructionFacts.
Import Chopper.

Section Membership.
Variables strict_empty strict_shapes : bool.

Local Abbreviation rich_eq := (rich_eq strict_empty strict_shapes).
Local Abbreviation tuple_eq := (tuple_eq strict_empty strict_shapes).
Local Abbreviation tuple_in := (tuple_in strict_empty strict_shapes).

Lemma is_refl (x : option array_arg) : is_ x x = true.
Proof. destruct x; simpl; [apply Nat.eqb_refl | reflexivity]. Qed.

Lemma rich_eq_refl (x : option array_arg) : rich_eq x x = Ok true.
Proof. unfold Chopper.rich_eq. now rewrite is_refl. Qed.

(** An array never compares equal to [None]. *)
Lemma truth_all_false (l : list R) :
  truth strict_empty (map (fun _ => false) l) <> Ok true.
Proof.
  destruct l as [|x [|y l]]; simpl; try discriminate.
  unfold empty_truth. destruct strict_empty; discriminate.
Qed.

Lemma rich_eq_true (x y : option array_arg) :
  rich_eq x y = Ok true -> is_some x = is_some y.
Proof.
  unfold Chopper.rich_eq.
  destruct x as [a|], y as [b|]; simpl; try reflexivity.
  - intro H. now apply truth_all_false in H.
  - intro H. now apply truth_all_false in H.
Qed.

Lemma tuple_eq_true (v w : list (option array_arg)) :
  tuple_eq v w = Ok true -> map is_some v = map is_some w.
Proof.
  revert w. induction v as [|x v IH]; intros [|y w]; simpl;
    try discriminate; [reflexivity|].
  destruct (rich_eq x y) as [[|]|] eqn:E; simpl; try discriminate.
  intro H. now rewrite (rich_eq_true _ _ E), (IH _ H).
Qed.

Lemma tuple_in_true (x : list (option array_arg))
      (c : list (list (option array_arg))) :
  tuple_in x c = Ok true ->
  exists item, In item c /\ tuple_eq item x = Ok true.
Proof.
  induction c as [|item c IH]; simpl; [discriminate|].
  destruct (tuple_eq item x) as [[|]|] eqn:E; simpl; try discriminate.
  - intros _. exists item. split; [now left | exact E].
  - intro H. destruct (IH H) as (it & Hin & Hit).
    exists it. split; [now right | exact Hit].
Qed.

Lemma given_is_some (args : list (option array_arg)) :
  map is_some (given args) = map (fun _ => true) (given args).
Proof.
  unfold given. induction args as [|[a|] args IH]; simpl;
    [reflexivity | now rewrite IH | exact IH].
Qed.

(** When the membership test of [__init__] passes, exactly one of
    the two representations was given. *)
Lemma membership_passed (open close centers widths : option array_arg) :
  tuple_in (given [open; close; centers; widths])
           [[open; close]; [centers; widths]] = Ok true ->
  exactly_one open close centers widths.
Proof.
  unfold exactly_one. intro H. apply tuple_in_true in H.
  destruct H as (item & Hin & Heq).
  apply tuple_eq_true in Heq. rewrite given_is_some in Heq.
  destruct Hin as [<-|[<-|[]]];
    destruct open, close, centers, widths; simpl in Heq;
      try discriminate; auto.
Qed.

(** Construction fails on a frequency that is not positive, on a
    direction that is none of the two, and when not exactly one
    representation of the cutouts is given. *)
Lemma init_rejects (f dist : R) (n : string) (ph : R)
      (open close centers widths : option array_arg) (d : direction_arg) :
  f <= 0 \/ d = NotADirection \/ ~ exactly_one open close centers widths ->
  exists e,
    __init__ strict_empty strict_shapes f dist n ph
             open close centers widths d = Raise e.
Proof.
  intro H. unfold __init__.
  destruct (Rle_dec f 0) as [|Hf]; [now exists ValueError|].
  destruct d as [d|]; [|now exists ValueError].
  destruct (tuple_in (given [open; close; centers; widths])
                     [[open; close]; [centers; widths]])
    as [[|]|e] eqn:E; simpl.
  - apply membership_passed in E.
    destruct H as [H|[H|H]]; [lra | discriminate | contradiction].
  - now exists ValueError.
  - now exists e.
Qed.

(** [open] and [close] alone construct a chopper. *)
Lemma init_open_close (f dist : R) (n : string) (ph : R)
      (o c : array_arg) (d : Direction) :
  0 < f ->
  __init__ strict_empty strict_shapes f dist n ph
           (Some o) (Some c) None None (Member d)
  = Ok (mkChopper f dist n ph (elems o) (elems c) d).
Proof.
  intro Hf. unfold __init__.
  destruct (Rle_dec f 0); [lra|].
  simpl. unfold Chopper.rich_eq. rewrite !is_refl. reflexivity.
Qed.

(** [centers] and [widths] of one cutout construct a chopper. *)
Lemma init_centers_widths_one (f dist : R) (n : string) (ph : R)
      (i j : nat) (c w : R) (d : Direction) :
  0 < f ->
  __init__ strict_empty strict_shapes f dist n ph
           None None (Some (mkArg i [c])) (Some (mkArg j [w])) (Member d)
  = Ok (mkChopper f dist n ph [c - w * 0.5] [c + w * 0.5] d).
Proof.
  intro Hf. unfold __init__.
  destruct (Rle_dec f 0); [lra|].
  simpl. unfold Chopper.rich_eq. simpl. rewrite !Nat.eqb_refl. reflexivity.
Qed.

(** [centers] of two or more cutouts never construct a chopper: the
    membership test compares them with [None] and raises. *)
Lemma init_centers_widths_many (f dist : R) (n : string) (ph : R)
      (i : nat) (c1 c2 : R) (cs : list R) (w : array_arg)
      (d : direction_arg) :
  __init__ strict_empty strict_shapes f dist n ph
           None None (Some (mkArg i (c1 :: c2 :: cs))) (Some w) d
  = Raise ValueError.
Proof.
  unfold __init__.
  destruct (Rle_dec f 0); [reflexivity|].
  destruct d; reflexivity.
Qed.

(** C8 fails on the code: two cutouts given by [centers] and [widths]
    are a valid input, yet construction raises [ValueError], because
    the membership test itself raises, while the same two cutouts
    given by [open] and [close] construct the chopper. *)
Theorem init_centers_widths_raises :
  let centers := Some (mkArg 1 [0; 90]) in
  let widths := Some (mkArg 2 [10; 20]) in
  __init__ strict_empty strict_shapes 14 10 "chopper" 0
           None None centers widths (Member Clockwise)
  = Raise ValueError
  /\ tuple_in (given [None; None; centers; widths])
              [[None; None]; [centers; widths]]
     = Raise ValueError
  /\ __init__ strict_empty strict_shapes 14 10 "chopper" 0
              (Some (mkArg 1 [-5; 80])) (Some (mkArg 2 [5; 100]))
              None None (Member Clockwise)
     = Ok (mkChopper 14 10 "chopper" 0 [-5; 80] [5; 100] Clockwise).
Proof.
  intros centers widths.
  split; [apply init_centers_widths_many|].
  split; [reflexivity|].
  apply (init_open_close 14 10 "chopper" 0
           (mkArg 1 [-5; 80]) (mkArg 2 [5; 100])). lra.
Qed.

End Membership.

End ConstructionFacts.

(** ** Facts on arrays *)

Module NDArrayFacts.
Import NDArray.

Lemma shape_eqb_refl (s : list nat) : shape_eqb s s = true.
Proof. unfold shape_eqb. now destruct (list_eq_dec Nat.eq_dec s s). Qed.

Lemma shape_eqb_eq (s t : list nat) : shape_eqb s t = true -> s = t.
Proof.
  unfold shape_eqb. now destruct (list_eq_dec Nat.eq_dec s t).
Qed.

Lemma index_in_range (n : nat) (i : Z) :
  ((- Z.of_nat n <=? i) && (i <? Z.of_nat n))%Z = true ->
  (- Z.of_nat n <= i < Z.of_nat n)%Z.
Proof. lia. Qed.

Lemma fold_left_Rmin_le (l : list R) (x : R) : fold_left Rmin l x <= x.
Proof.
  revert x. induction l as [|y l IH]; intro x; simpl; [lra|].
  pose proof (IH (Rmin x y)). pose proof (Rmin_l x y). lra.
Qed.

Lemma fold_left_Rmin_lower (l : list R) (x y : R) :
  In y l -> fold_left Rmin l x <= y.
Proof.
  revert x. induction l as [|z l IH]; intros x Hin; simpl; [easy|].
  destruct Hin as [->|Hin]; [|now apply IH].
  pose proof (fold_left_Rmin_le l (Rmin x y)). pose proof (Rmin_r x y). lra.
Qed.

Lemma fold_left_Rmin_In (l : list R) (x : R) :
  In (fold_left Rmin l x) (x :: l).
Proof.
  revert x. induction l as [|y l IH]; intro x; simpl; [now left|].
  destruct (IH (Rmin x y)) as [E|Hin]; [|now right; right].
  rewrite <- E. unfold Rmin. destruct (Rle_dec x y); auto.
Qed.

Lemma fold_left_Rmax_ge (l : list R) (x : R) : x <= fold_left Rmax l x.
Proof.
  revert x. induction l as [|y l IH]; intro x; simpl; [lra|].
  pose proof (IH (Rmax x y)). pose proof (Rmax_l x y). lra.
Qed.

Lemma fold_left_Rmax_upper (l : list R) (x y : R) :
  In y l -> y <= fold_left Rmax l x.
Proof.
  revert x. induction l as [|z l IH]; intros x Hin; simpl; [easy|].
  destruct Hin as [->|Hin]; [|now apply IH].
  pose proof (fold_left_Rmax_ge l (Rmax x y)). pose proof (Rmax_r x y). lra.
Qed.

Lemma fold_left_Rmax_In (l : list R) (x : R) :
  In (fold_left Rmax l x) (x :: l).
Proof.
  revert x. induction l as [|y l IH]; intro x; simpl; [now left|].
  destruct (IH (Rmax x y)) as [E|Hin]; [|now right; right].
  rewrite <- E. unfold Rmax. destruct (Rle_dec x y); auto.
Qed.

(** *** Indexing *)

(** Whether [a[k]] succeeds, and with which shape, is decided by the
    shape of [a] and the key alone. *)
Lemma getitem_same_shape {A B : Type} (a a' : ndarray A) (b : ndarray B)
      (k : key) :
  shape a = shape b ->
  getitem a k = Ok a' ->
  exists b', getitem b k = Ok b' /\ shape b' = shape a'.
Proof.
  unfold getitem. intros <-.
  destruct (shape a) as [|n rest]; [discriminate|].
  destruct k as [i|start stop step].
  - destruct ((- Z.of_nat n <=? i) && (i <? Z.of_nat n))%Z; [|discriminate].
    intro E. injection E as <-. eexists. split; reflexivity.
  - destruct (slice_indices (Z.of_nat n) start stop step)
      as [[[st sp] stp]|e]; simpl; [|discriminate].
    intro E. injection E as <-. eexists. split; reflexivity.
Qed.

Lemma slice_indices_range (n st sp stp : Z)
      (ostart ostop ostep : option Z) :
  (0 <= n)%Z ->
  slice_indices n ostart ostop ostep = Ok (st, sp, stp) ->
  (stp <> 0)%Z
  /\ (if (stp <? 0)%Z then -1 <= st <= n - 1 /\ -1 <= sp <= n - 1
      else 0 <= st <= n /\ 0 <= sp <= n)%Z.
Proof.
  intros Hn. unfold slice_indices.
  destruct ostep as [s|]; simpl.
  - destruct (Z.eqb_spec s 0); [discriminate|].
    intro E. injection E as <- <- <-. split; [assumption|].
    destruct (Z.ltb_spec s 0);
      destruct ostart as [v|], ostop as [u|];
      repeat match goal with
             | |- context[(?x <? 0)%Z] => destruct (Z.ltb_spec x 0)
             end; lia.
  - intro E. injection E as <- <- <-. split; [lia|].
    destruct ostart as [v|], ostop as [u|]; simpl;
      repeat match goal with
             | |- context[(?x <? 0)%Z] => destruct (Z.ltb_spec x 0)
             end; lia.
Qed.

(** Every index that a normalised slice selects lies inside the axis. *)
Lemma slice_index_in_range (n st sp stp : Z) (i : nat) :
  (stp <> 0)%Z ->
  (if (stp <? 0)%Z then -1 <= st <= n - 1 /\ -1 <= sp <= n - 1
   else 0 <= st <= n /\ 0 <= sp <= n)%Z ->
  (i < slice_length st sp stp)%nat ->
  (0 <= st + Z.of_nat i * stp < n)%Z.
Proof.
  intros Hstp Hr Hi. unfold slice_length in Hi.
  destruct (Z.ltb_spec stp 0) as [Hneg|Hpos].
  - destruct (Z.ltb_spec sp st) as [Hlt|]; [|lia].
    set (q := ((st - sp - 1) / - stp)%Z) in *.
    assert (Hq : (- stp * q <= st - sp - 1)%Z)
      by (apply Z.mul_div_le; lia).
    assert (0 <= q)%Z by (apply Z.div_pos; lia).
    assert (Z.of_nat i <= q)%Z by lia.
    nia.
  - destruct (Z.ltb_spec st sp) as [Hlt|]; [|lia].
    set (q := ((sp - st - 1) / stp)%Z) in *.
    assert (Hq : (stp * q <= sp - st - 1)%Z)
      by (apply Z.mul_div_le; lia).
    assert (0 <= q)%Z by (apply Z.div_pos; lia).
    assert (Z.of_nat i <= q)%Z by lia.
    nia.
Qed.

Lemma row_length {A : Type} (stride i n : nat) (l : list A) :
  length l = (n * stride)%nat -> (i < n)%nat ->
  length (row stride i l) = stride.
Proof.
  intros Hl Hi. unfold row. rewrite length_firstn, length_skipn. nia.
Qed.

Lemma flat_map_length_const {A B : Type} (f : A -> list B) (c : nat)
      (l : list A) :
  (forall x, In x l -> length (f x) = c) ->
  length (flat_map f l) = (length l * c)%nat.
Proof.
  induction l as [|x l IH]; intro H; simpl; [reflexivity|].
  rewrite length_app, (H x) by now left.
  rewrite IH; [reflexivity|]. intros y Hy. apply H. now right.
Qed.

(** Indexing a well-formed array gives a well-formed array. *)
Lemma getitem_wf {A : Type} (a a' : ndarray A) (k : key) :
  wf a -> getitem a k = Ok a' -> wf a'.
Proof.
  unfold wf, size, getitem. intro W.
  destruct (shape a) as [|n rest]; [discriminate|]. simpl in W.
  destruct k as [i|start stop step].
  - destruct ((- Z.of_nat n <=? i) && (i <? Z.of_nat n))%Z eqn:Hr;
      [|discriminate].
    apply index_in_range in Hr.
    intro E. injection E as <-. simpl.
    apply row_length with (n := n); [exact W|].
    destruct (Z.ltb_spec i 0); lia.
  - destruct (slice_indices (Z.of_nat n) start stop step)
      as [[[st sp] stp]|e] eqn:Es; simpl; [|discriminate].
    intro E. injection E as <-. simpl.
    apply slice_indices_range in Es; [|lia].
    destruct Es as [Hstp Hr].
    rewrite flat_map_length_const with (c := size_of rest);
      [now rewrite length_seq|].
    intros i Hi. apply in_seq in Hi.
    apply row_length with (n := n); [exact W|].
    pose proof (slice_index_in_range _ _ _ _ i Hstp Hr ltac:(lia)). lia.
Qed.

End NDArrayFacts.

(** ** Facts on reading fields *)

Module ReadingFacts.
Import NDArray NDArrayFacts Reading.

Lemma visible_data_eq (v : list R) (m o : list bool) :
  map fst
    (filter snd
       (combine v
          (map negb
             (map (fun xy => orb (fst xy) (snd xy)) (combine m o)))))
  = map fst
      (filter (fun vmo => negb (fst (snd vmo)) && negb (snd (snd vmo)))
         (combine v (combine m o))).
Proof.
  revert m o. induction v as [|x v IH]; intros m o; [reflexivity|].
  destruct m as [|a m]; [reflexivity|].
  destruct o as [|b o]; [reflexivity|].
  simpl. rewrite negb_orb.
  destruct (negb a && negb b); simpl; now rewrite IH.
Qed.

(** The array that [min], [max] and [__repr__] reduce holds the
    unblocked values. *)
Lemma visible_unblocked (self : ReadingField) :
  aligned self ->
  visible self
  = Ok (mkArray [length (unblocked self)] (unblocked self)).
Proof.
  intros [Hvm Hmo]. unfold visible, bitwise_or, select, unblocked.
  rewrite <- Hmo, shape_eqb_refl. simpl.
  rewrite Hvm, shape_eqb_refl, visible_data_eq. reflexivity.
Qed.

Lemma is_minimum_unique (l : list R) (m m' : R) :
  is_minimum m l -> is_minimum m' l -> m = m'.
Proof.
  intros [Hin Hle] [Hin' Hle'].
  apply Rle_antisym; [now apply Hle | now apply Hle'].
Qed.

Lemma is_maximum_unique (l : list R) (m m' : R) :
  is_maximum m l -> is_maximum m' l -> m = m'.
Proof.
  intros [Hin Hle] [Hin' Hle'].
  apply Rle_antisym; [now apply Hle' | now apply Hle].
Qed.

Lemma fold_left_Rmin_minimum (l : list R) (x : R) :
  is_minimum (fold_left Rmin l x) (x :: l).
Proof.
  split; [apply fold_left_Rmin_In|].
  intros y [<-|Hin];
    [apply fold_left_Rmin_le | now apply fold_left_Rmin_lower].
Qed.

Lemma fold_left_Rmax_maximum (l : list R) (x : R) :
  is_maximum (fold_left Rmax l x) (x :: l).
Proof.
  split; [apply fold_left_Rmax_In|].
  intros y [<-|Hin];
    [apply fold_left_Rmax_ge | now apply fold_left_Rmax_upper].
Qed.

Lemma min_unblocked (self : ReadingField) :
  aligned self ->
  min self = match unblocked self with
             | [] => Raise ValueError
             | x :: l => Ok (fold_left Rmin l x)
             end.
Proof.
  intro H. unfold min. rewrite (visible_unblocked self H). reflexivity.
Qed.

Lemma max_unblocked (self : ReadingField) :
  aligned self ->
  max self = match unblocked self with
             | [] => Raise ValueError
             | x :: l => Ok (fold_left Rmax l x)
             end.
Proof.
  intro H. unfold max. rewrite (visible_unblocked self H). reflexivity.
Qed.

Lemma filter_nil_nth (v : list R) (m o : list bool) (n : nat) :
  length v = n -> length m = n -> length o = n ->
  filter (fun vmo => negb (fst (snd vmo)) && negb (snd (snd vmo)))
    (combine v (combine m o)) = []
  <-> (forall i, (i < n)%nat ->
         nth i m false = true \/ nth i o false = true).
Proof.
  revert m o n. induction v as [|x v IH]; intros m o n Hv Hm Ho.
  - simpl in Hv. subst n. split; [intros _ i Hi; lia | reflexivity].
  - destruct m as [|a m]; [simpl in *; lia|].
    destruct o as [|b o]; [simpl in *; lia|].
    destruct n as [|n]; [discriminate|].
    simpl in Hv, Hm, Ho.
    specialize (IH m o n ltac:(lia) ltac:(lia) ltac:(lia)).
    simpl. split.
    + intros Hnil i Hi.
      destruct (negb a && negb b) eqn:E; [discriminate|].
      destruct i as [|i]; simpl.
      * destruct a, b; simpl in E; auto; discriminate.
      * apply (proj1 IH Hnil). lia.
    + intro Hall.
      destruct (Hall 0%nat ltac:(lia)) as [Ha|Hb];
        [simpl in Ha | simpl in Hb].
      * subst a. simpl. apply IH. intros i Hi.
        apply (Hall (S i)). lia.
      * subst b. rewrite andb_false_r. apply IH. intros i Hi.
        apply (Hall (S i)). lia.
Qed.

Lemma unblocked_nil_iff (self : ReadingField) :
  well_formed self -> unblocked self = [] <-> all_blocked self.
Proof.
  intros [[Hvm Hmo] [Wv [Wm Wo]]]. unfold unblocked, all_blocked.
  unfold wf, size in *. rewrite <- Hmo, <- Hvm in Wo. rewrite <- Hvm in Wm.
  rewrite <- (filter_nil_nth _ _ _ _ Wv Wm Wo).
  split; [|now intros ->].
  intro H. now apply map_eq_nil in H.
Qed.

(** C2: [min] and [max] return the minimum and the maximum of the
    values whose entry is blocked by neither mask, and they fail, with
    the [ValueError] of a reduction over nothing, exactly when every
    entry is blocked by at least one mask. *)
Theorem min_max_unblocked (self : ReadingField) :
  well_formed self ->
  (forall m, min self = Ok m <-> is_minimum m (unblocked self))
  /\ (forall m, max self = Ok m <-> is_maximum m (unblocked self))
  /\ ((exists e, min self = Raise e) <-> all_blocked self)
  /\ ((exists e, max self = Raise e) <-> all_blocked self)
  /\ (forall e, min self = Raise e \/ max self = Raise e -> e = ValueError).
Proof.
  intro W. pose proof (unblocked_nil_iff self W) as Hnil.
  destruct W as [Ha _].
  rewrite (min_unblocked self Ha), (max_unblocked self Ha).
  destruct (unblocked self) as [|x l].
  - assert (Hb : all_blocked self) by now apply Hnil.
    split; [intro m; split; [discriminate | intros [[] _]]|].
    split; [intro m; split; [discriminate | intros [[] _]]|].
    split; [split; [easy | now exists ValueError]|].
    split; [split; [easy | now exists ValueError]|].
    intros e [E|E]; now injection E.
  - assert (Hno : ~ all_blocked self)
      by (intro Hb; apply Hnil in Hb; discriminate).
    split.
    { intro m; split.
      - intro E. injection E as <-. apply fold_left_Rmin_minimum.
      - intro Hm. f_equal.
        apply (is_minimum_unique _ _ _ (fold_left_Rmin_minimum l x) Hm). }
    split.
    { intro m; split.
      - intro E. injection E as <-. apply fold_left_Rmax_maximum.
      - intro Hm. f_equal.
        apply (is_maximum_unique _ _ _ (fold_left_Rmax_maximum l x) Hm). }
    split; [split; [intros [e E]; discriminate | contradiction]|].
    split; [split; [intros [e E]; discriminate | contradiction]|].
    intros e [E|E]; discriminate.
Qed.

Lemma min_max_unblocked_witness :
  well_formed example_field
  /\ min example_field = Ok 1 /\ max example_field = Ok 4.
Proof.
  assert (W : well_formed example_field) by (repeat split).
  split; [exact W|].
  destruct (min_max_unblocked example_field W) as (Hmin & Hmax & _).
  split.
  - apply Hmin. split; [now left|].
    intros y Hy; simpl in Hy; destruct Hy as [<-|[<-|[]]]; lra.
  - apply Hmax. split; [now right; left|].
    intros y Hy; simpl in Hy; destruct Hy as [<-|[<-|[]]]; lra.
Defined.

(** *** Indexing a field *)

(** C9: when the three arrays of a field share one shape and the key is
    valid for it, indexing returns the field whose three arrays are the
    old ones indexed by that key, and they share one shape again. *)
Theorem getitem_aligned (self : ReadingField) (val : key) (v : ndarray R) :
  aligned self ->
  getitem (values self) val = Ok v ->
  exists m o,
    getitem (blocked_by_me self) val = Ok m
    /\ getitem (blocked_by_others self) val = Ok o
    /\ __getitem__ self val
       = Ok (mkReadingField (name self) (unit self) v m o)
    /\ aligned (mkReadingField (name self) (unit self) v m o).
Proof.
  intros [Hvm Hmo] Hv.
  destruct (getitem_same_shape _ _ (blocked_by_me self) _ Hvm Hv)
    as (m & Hm & Hsm).
  destruct (getitem_same_shape _ _ (blocked_by_others self) _
              (eq_trans Hvm Hmo) Hv) as (o & Ho & Hso).
  exists m, o. unfold __getitem__. rewrite Hv, Hm, Ho.
  split; [reflexivity|]. split; [reflexivity|]. split; [reflexivity|].
  split; simpl; congruence.
Qed.

Lemma getitem_aligned_witness :
  aligned example_field
  /\ exists m o,
       __getitem__ example_field (Slice (Some 1%Z) None (Some 2%Z))
       = Ok (mkReadingField "toa" "us" (mkArray [2%nat] [2; 4]) m o)
       /\ shape m = [2%nat] /\ shape o = [2%nat].
Proof.
  assert (Ha : aligned example_field) by (split; reflexivity).
  split; [exact Ha|].
  destruct (getitem_aligned example_field
              (Slice (Some 1%Z) None (Some 2%Z))
              (mkArray [2%nat] [2; 4]) Ha eq_refl)
    as (m & o & _ & _ & E & Hvm & Hmo).
  exists m, o. simpl in Hvm, Hmo.
  split; [exact E|]. split; congruence.
Defined.

(** Indexing keeps a field well formed. *)
Lemma getitem_well_formed (self r : ReadingField) (val : key) :
  well_formed self -> __getitem__ self val = Ok r -> well_formed r.
Proof.
  intros ((Hvm & Hmo) & Wv & Wm & Wo). unfold __getitem__.
  destruct (getitem (values self) val) as [v|] eqn:Ev; [|discriminate].
  destruct (getitem (blocked_by_me self) val) as [m|] eqn:Em;
    [|discriminate].
  destruct (getitem (blocked_by_others self) val) as [o|] eqn:Eo;
    [|discriminate].
  simpl. intro E. injection E as <-.
  destruct (getitem_same_shape _ _ (blocked_by_me self) _ Hvm Ev)
    as (m' & Hm & Hsm).
  destruct (getitem_same_shape _ _ (blocked_by_others self) _ Hmo Em)
    as (o' & Ho & Hso).
  assert (m' = m) by congruence. assert (o' = o) by congruence. subst.
  split; [split; simpl; congruence|]. simpl.
  split; [exact (getitem_wf _ _ _ Wv Ev)|].
  split; [exact (getitem_wf _ _ _ Wm Em) | exact (getitem_wf _ _ _ Wo Eo)].
Qed.

(** C10: the field that indexing returns has the name and the unit of
    the field that was indexed. *)
Theorem getitem_name_unit (self r : ReadingField) (val : key) :
  __getitem__ self val = Ok r ->
  name r = name self /\ unit r = unit self.
Proof.
  unfold __getitem__.
  destruct (getitem (values self) val); [|discriminate].
  destruct (getitem (blocked_by_me self) val); [|discriminate].
  destruct (getitem (blocked_by_others self) val); [|discriminate].
  simpl. intro E. injection E as <-. split; reflexivity.
Qed.

Lemma getitem_name_unit_witness :
  exists r,
    __getitem__ example_field (Index (-1)) = Ok r
    /\ values r = mkArray [] [4]
    /\ name r = "toa"%string /\ unit r = "us"%string.
Proof.
  eexists. split; [reflexivity|]. split; [reflexivity|].
  exact (getitem_name_unit example_field _ (Index (-1)) eq_refl).
Defined.

(** *** Counting blocked neutrons *)

Lemma count_partition (v : list R) (m o : list bool) :
  length v = length m -> length m = length o ->
  (length
     (filter (fun vmo => negb (fst (snd vmo)) && negb (snd (snd vmo)))
        (combine v (combine m o)))
   + length (filter (fun mo => fst mo || snd mo) (combine m o))
   = length v)%nat.
Proof.
  revert m o. induction v as [|x v IH]; intros m o Hm Ho.
  - destruct m; [reflexivity | discriminate].
  - destruct m as [|a m]; [discriminate|].
    destruct o as [|b o]; [discriminate|].
    simpl in Hm, Ho. specialize (IH m o ltac:(lia) ltac:(lia)).
    simpl. destruct a, b; simpl; lia.
Qed.

(** The sibling path: the events that [ReadingField.__repr__] reports
    are the neutrons outside the union of the two masks. *)
Lemma field_events_union (d : NeutronData) (r : field_repr) :
  data_well_formed d ->
  __repr__ (reading_toa d) = Ok r ->
  Z.of_nat (repr_events r) = (data_size d - union_count d)%Z.
Proof.
  intros W. pose proof W as ((Hvm & Hmo) & Wv & Wm & Wo).
  assert (Hlen : Z.of_nat (length (unblocked (reading_toa d)))
                 = (data_size d - union_count d)%Z).
  { unfold unblocked, union_count, data_size. rewrite length_map.
    unfold wf, size in Wv, Wm, Wo. simpl in Hvm, Hmo, Wv, Wm, Wo |- *.
    rewrite <- Hmo, <- Hvm in Wo. rewrite <- Hvm in Wm.
    pose proof (count_partition (data (toa d))
                  (data (data_blocked_by_me d))
                  (data (data_blocked_by_others d))) as Hc.
    unfold size. rewrite <- Wv. lia. }
  unfold __repr__. rewrite (visible_unblocked _ (proj1 W)).
  unfold bind, amin, amax. cbn [data].
  destruct (unblocked (reading_toa d)) as [|x l]; [discriminate|].
  intro Er. injection Er as <-. cbn [repr_events].
  unfold size. cbn [shape size_of fold_right].
  rewrite Nat.mul_1_r. exact Hlen.
Qed.

(** On disjoint masks the sum of the two counts is the count of the
    union. *)
Lemma sum_disjoint (m o : list bool) :
  Forall2 (fun a b => a && b = false) m o ->
  (length (filter (fun b => b) m) + length (filter (fun b => b) o)
   = length (filter (fun mo => fst mo || snd mo) (combine m o)))%nat.
Proof.
  induction 1 as [|a b m o Hab _ IH]; [reflexivity|].
  simpl. destruct a, b; simpl in *; try discriminate; lia.
Qed.

(** C3 fails on the code: [_repr_stats] adds the two mask counts, so a
    neutron blocked by both masks counts twice.  For [twice_blocked] it
    prints 2 blocked and 0 visible neutrons, although the union of the
    masks holds 1 neutron and the time-of-arrival field reports 1
    event. *)
Theorem repr_stats_counts_twice :
  _repr_stats twice_blocked = "visible=0, blocked=2"%string
  /\ stats_blocked twice_blocked = 2%Z
  /\ stats_visible twice_blocked = 0%Z
  /\ union_count (cr_data twice_blocked) = 1%Z
  /\ (data_size (cr_data twice_blocked)
      - union_count (cr_data twice_blocked) = 1)%Z
  /\ exists r, __repr__ (reading_toa (cr_data twice_blocked)) = Ok r
               /\ repr_events r = 1%nat.
Proof.
  repeat split; try reflexivity.
  eexists. split; reflexivity.
Qed.

End ReadingFacts.

(** ** More facts on the gating windows *)

Lemma map_flat_map {A B C : Type} (f : B -> C) (g : A -> list B)
      (l : list A) :
  map f (flat_map g l) = flat_map (fun x => map f (g x)) l.
Proof.
  induction l as [|x l IH]; simpl; [reflexivity|].
  now rewrite map_app, IH.
Qed.

Lemma flat_map_map {A B C : Type} (f : A -> B) (g : B -> list C)
      (l : list A) :
  flat_map g (map f l) = flat_map (fun x => g (f x)) l.
Proof.
  induction l as [|x l IH]; simpl; [reflexivity|now rewrite IH].
Qed.

Lemma skipn_length_app {A : Type} (n : nat) (l l' : list A) :
  length l = n -> skipn n (l ++ l') = l'.
Proof.
  intros <-. induction l as [|a l IH]; simpl; [reflexivity|exact IH].
Qed.

Lemma firstn_length_app {A : Type} (n : nat) (l l' : list A) :
  length l = n -> firstn n (l ++ l') = l.
Proof.
  intros <-. induction l as [|a l IH]; simpl; [reflexivity|now rewrite IH].
Qed.

Module ChopperMore.
Import Chopper ChopperFacts.

(** *** Lengths without the invariant *)


End ChopperMore.

(** ** More facts on the construction of a chopper *)

Module ConstructionMore.
Import Chopper ConstructionSpec ConstructionFacts.

Section Outcomes.
Variables strict_empty strict_shapes : bool.

Local Abbreviation rich_eq := (Chopper.rich_eq strict_empty strict_shapes).
Local Abbreviation tuple_eq := (Chopper.tuple_eq strict_empty strict_shapes).
Local Abbreviation tuple_in := (Chopper.tuple_in strict_empty strict_shapes).
Local Abbreviation init := (__init__ strict_empty strict_shapes).







(** X9: One center with its widths is the same chopper as the edges
    [center - width / 2] and [center + width / 2] given as [open] and
    [close]. *)
Theorem init_centers_widths_as_edges
        (f dist : R) (n : string) (ph : R) (i j i' j' : nat)
        (c : R) (ws : list R) (d : direction_arg) :
  init f dist n ph None None (Some (mkArg i [c])) (Some (mkArg j ws)) d
  = init f dist n ph
         (Some (mkArg i' (map (fun w => c - w * 0.5) ws)))
         (Some (mkArg j' (map (fun w => c + w * 0.5) ws)))
         None None d.
Proof.
  unfold __init__.
  destruct (Rle_dec f 0); [reflexivity|].
  destruct d as [d|]; [|reflexivity].
  simpl. unfold Chopper.rich_eq. simpl. rewrite !Nat.eqb_refl. simpl.
  unfold arith, broadcast.
  destruct ws as [|w1 [|w2 ws]]; simpl; try reflexivity.
  rewrite !map_map. reflexivity.
Qed.

(** X7: Construction succeeds exactly for a positive frequency, a member
    of [Direction] and either [open] and [close] alone, of any
    lengths, or [centers] and [widths] alone with a usable [centers]
    array. *)
Theorem init_succeeds_iff
        (f dist : R) (n : string) (ph : R)
        (open close centers widths : option array_arg)
        (d : direction_arg) :
  (exists ch, init f dist n ph open close centers widths d = Ok ch)
  <-> 0 < f
      /\ (exists m, d = Member m)
      /\ ((is_some open = true /\ is_some close = true
           /\ centers = None /\ widths = None)
          \/ (open = None /\ close = None
              /\ exists c w, centers = Some c /\ widths = Some w
                   /\ centers_usable strict_empty (elems c) (elems w))).
Proof.
  split.
  - intros [ch H]. unfold __init__ in H.
    destruct (Rle_dec f 0) as [|Hf]; [discriminate|].
    split; [lra|].
    destruct d as [m|]; [|discriminate].
    split; [now exists m|].
    destruct (tuple_in (given [open; close; centers; widths])
                       [[open; close]; [centers; widths]])
      as [[|]|e'] eqn:E; simpl in H; try discriminate.
    pose proof (membership_passed _ _ _ _ _ _ E)
      as [(Ho & Hc & -> & ->)|(-> & -> & Hce & Hw)]; [now left|].
    right. split; [reflexivity|]. split; [reflexivity|].
    destruct centers as [c|], widths as [w|]; try discriminate.
    exists c, w. split; [reflexivity|]. split; [reflexivity|].
    unfold centers_usable.
    simpl in E. unfold Chopper.rich_eq in E. simpl in E.
    destruct (elems c) as [|x [|y l]] eqn:Ec; simpl in E.
    + right. unfold empty_truth in E.
      destruct strict_empty; [discriminate|].
      split; [reflexivity|]. split; [reflexivity|].
      unfold arith, broadcast in H. simpl in H.
      destruct (elems w) as [|w1 [|w2 lw]]; simpl in *;
        try lia; discriminate.
    + now left.
    + discriminate.
  - intros (Hf & [m ->] & Hargs). unfold __init__.
    destruct (Rle_dec f 0); [lra|].
    destruct Hargs as [(Ho & Hc & -> & ->)
                      |(-> & -> & c & w & -> & -> & Hu)].
    + destruct open as [o|], close as [c|]; try discriminate.
      simpl. unfold Chopper.rich_eq. rewrite !is_refl. simpl.
      eexists. reflexivity.
    + simpl. unfold Chopper.rich_eq. simpl. rewrite !Nat.eqb_refl.
      unfold arith, broadcast.
      destruct Hu as [Hu|(Hc & -> & Hw)].
      * destruct (elems c) as [|x [|y l]]; try discriminate. simpl.
        destruct (elems w) as [|w1 [|w2 lw]]; simpl;
          eexists; reflexivity.
      * rewrite Hc. unfold empty_truth. simpl.
        destruct (elems w) as [|w1 [|w2 lw]]; simpl in *;
          try lia; eexists; reflexivity.
Qed.

End Outcomes.


End ConstructionMore.

(** ** More facts on indexing *)

Module IndexingMore.
Import NDArray NDArrayFacts Reading ReadingSpec.

(** The shape of an array and the key decide whether indexing
    succeeds and the shape of what it returns. *)
Lemma getitem_outcome {A : Type} (a : ndarray A) (k : key) :
  match getitem_shape (shape a) k with
  | Ok s => exists a', getitem a k = Ok a' /\ shape a' = s
  | Raise e => getitem a k = Raise e
  end.
Proof.
  unfold getitem_shape, getitem.
  destruct (shape a) as [|n rest]; [reflexivity|].
  destruct k as [i|start stop step].
  - destruct ((- Z.of_nat n <=? i) && (i <? Z.of_nat n))%Z;
      [eexists; split; reflexivity | reflexivity].
  - destruct (slice_indices (Z.of_nat n) start stop step)
      as [[[st sp] stp]|e]; simpl;
      [eexists; split; reflexivity | reflexivity].
Qed.

Lemma field_getitem_outcome (self : ReadingField) (k : key) :
  aligned self ->
  match getitem_shape (shape (values self)) k with
  | Ok s => exists r, __getitem__ self k = Ok r
                      /\ shape (values r) = s
                      /\ shape (blocked_by_me r) = s
                      /\ shape (blocked_by_others r) = s
  | Raise e => __getitem__ self k = Raise e
  end.
Proof.
  intros [Hvm Hmo].
  pose proof (getitem_outcome (values self) k) as Hv.
  pose proof (getitem_outcome (blocked_by_me self) k) as Hm.
  pose proof (getitem_outcome (blocked_by_others self) k) as Ho.
  rewrite <- Hmo, <- Hvm in Ho. rewrite <- Hvm in Hm.
  unfold __getitem__.
  destruct (getitem_shape (shape (values self)) k) as [s|e].
  - destruct Hv as (v & -> & Hsv), Hm as (m & -> & Hsm),
      Ho as (o & -> & Hso).
    simpl. eexists. repeat split; assumption.
  - now rewrite Hv.
Qed.

Lemma slice_length_le (n st sp stp : Z) :
  (0 <= n)%Z -> (stp <> 0)%Z ->
  (if (stp <? 0)%Z then -1 <= st <= n - 1 /\ -1 <= sp <= n - 1
   else 0 <= st <= n /\ 0 <= sp <= n)%Z ->
  (Z.of_nat (slice_length st sp stp) <= n)%Z.
Proof.
  intros Hn Hstp Hr. unfold slice_length.
  destruct (Z.ltb_spec stp 0) as [Hneg|Hpos].
  - destruct (Z.ltb_spec sp st); [|lia].
    assert ((st - sp - 1) / - stp <= st - sp - 1)%Z
      by (apply Z.div_le_upper_bound; nia).
    assert (0 <= (st - sp - 1) / - stp)%Z by (apply Z.div_pos; lia).
    lia.
  - destruct (Z.ltb_spec st sp); [|lia].
    assert ((sp - st - 1) / stp <= sp - st - 1)%Z
      by (apply Z.div_le_upper_bound; nia).
    assert (0 <= (sp - st - 1) / stp)%Z by (apply Z.div_pos; lia).
    lia.
Qed.

(** X10: The errors of indexing a field with a slice or with an integer
    that fits 64 bits ([-2^63 <= i < 2^63]).  A field of scalars cannot
    be indexed.  Otherwise such an integer is accepted exactly between
    [-n] and [n - 1], a negative one counting from the end, and removes
    the first axis, and raises [IndexError] outside; a slice is
    rejected only for a step of zero, whatever its bounds, and selects
    at most [n] rows. *)
Theorem getitem_errors (self : ReadingField) :
  aligned self ->
  match shape (values self) with
  | [] => forall k, fits_intp k -> __getitem__ self k = Raise IndexError
  | n :: rest =>
      (forall i, (- Z.of_nat n <= i < Z.of_nat n)%Z ->
                 exists r, __getitem__ self (Index i) = Ok r
                           /\ shape (values r) = rest)
      /\ (forall i, fits_intp (Index i) ->
                    ~ (- Z.of_nat n <= i < Z.of_nat n)%Z ->
                    __getitem__ self (Index i) = Raise IndexError)
      /\ (forall i, (- Z.of_nat n <= i < 0)%Z ->
                    __getitem__ self (Index i)
                    = __getitem__ self (Index (i + Z.of_nat n)))
      /\ (forall start stop,
             __getitem__ self (Slice start stop (Some 0%Z))
             = Raise ValueError)
      /\ (forall start stop step, step <> Some 0%Z ->
             exists r len,
               __getitem__ self (Slice start stop step) = Ok r
               /\ shape (values r) = len :: rest
               /\ (len <= n)%nat)
  end.
Proof.
  intro Ha.
  pose proof (field_getitem_outcome self) as H.
  destruct (shape (values self)) as [|n rest] eqn:Es.
  - intros k _. exact (H k Ha).
  - split; [|split; [|split; [|split]]].
    + intros i Hi. specialize (H (Index i) Ha). simpl in H.
      replace ((- Z.of_nat n <=? i) && (i <? Z.of_nat n))%Z
        with true in H by lia.
      destruct H as (r & Hr & Hs & _). now exists r.
    + intros i _ Hi. specialize (H (Index i) Ha). simpl in H.
      replace ((- Z.of_nat n <=? i) && (i <? Z.of_nat n))%Z
        with false in H by lia.
      exact H.
    + intros i Hi. destruct Ha as [Hvm Hmo].
      unfold __getitem__, getitem.
      rewrite <- Hmo, <- Hvm, Es.
      replace ((- Z.of_nat n <=? i) && (i <? Z.of_nat n))%Z
        with true by lia.
      replace ((- Z.of_nat n <=? i + Z.of_nat n)
               && (i + Z.of_nat n <? Z.of_nat n))%Z with true by lia.
      replace (i <? 0)%Z with true by lia.
      replace (i + Z.of_nat n <? 0)%Z with false by lia.
      reflexivity.
    + intros start stop.
      exact (H (Slice start stop (Some 0%Z)) Ha).
    + intros start stop step Hstep.
      specialize (H (Slice start stop step) Ha). simpl in H.
      destruct (slice_indices (Z.of_nat n) start stop step)
        as [[[st sp] stp]|e] eqn:Ei; simpl in H.
      * destruct H as (r & Hr & Hs & _).
        exists r, (slice_length st sp stp).
        split; [exact Hr|]. split; [exact Hs|].
        apply slice_indices_range in Ei; [|lia].
        destruct Ei as [Hstp Hrange].
        pose proof (slice_length_le (Z.of_nat n) st sp stp
                      ltac:(lia) Hstp Hrange). lia.
      * exfalso. unfold slice_indices in Ei.
        destruct step as [z|]; simpl in Ei; [|discriminate].
        destruct (Z.eqb_spec z 0); [congruence | discriminate].
Qed.

Lemma getitem_errors_witness :
  aligned example_field
  /\ __getitem__ example_field (Index 4) = Raise IndexError
  /\ __getitem__ example_field (Slice (Some 1%Z) (Some 100%Z) (Some 0%Z))
     = Raise ValueError.
Proof.
  assert (Ha : aligned example_field) by (split; reflexivity).
  split; [exact Ha|].
  pose proof (getitem_errors example_field Ha) as H. simpl in H.
  destruct H as (_ & Hout & _ & Hzero & _).
  split; [apply Hout; [simpl|]; lia | apply Hzero].
Defined.

(** *** The full slice *)

Lemma skipn_cons_nth {A : Type} (d : A) (l : list A) (a : nat) :
  (a < length l)%nat -> skipn a l = nth a l d :: skipn (S a) l.
Proof.
  revert a. induction l as [|x l IH]; intros a Ha; simpl in Ha; [lia|].
  destruct a as [|a]; [reflexivity|].
  simpl. apply IH. lia.
Qed.

Lemma firstn_skipn_gather {A : Type} (d : A) (l : list A) (a b : nat) :
  (a + b <= length l)%nat ->
  firstn b (skipn a l) = map (fun p => nth p l d) (seq a b).
Proof.
  revert a. induction b as [|b IH]; intros a Hab; [reflexivity|].
  rewrite (skipn_cons_nth d) by lia. cbn [firstn seq map]. f_equal.
  apply IH. lia.
Qed.

Lemma rows_concat {A : Type} (stride n : nat) (l : list A) :
  length l = (n * stride)%nat ->
  flat_map (fun i => row stride i l) (seq 0 n) = l.
Proof.
  revert l. induction n as [|n IH]; intros l Hl.
  - destruct l; [reflexivity | discriminate].
  - rewrite <- cons_seq, <- seq_shift. simpl flat_map.
    rewrite flat_map_map.
    transitivity (firstn stride l ++ skipn stride l);
      [|apply firstn_skipn].
    f_equal.
    transitivity
      (flat_map (fun i => row stride i (skipn stride l)) (seq 0 n));
      [|apply IH; rewrite length_skipn; lia].
    apply flat_map_ext. intro i. unfold row.
    rewrite skipn_skipn. do 2 f_equal. lia.
Qed.

Lemma full_slice {A : Type} (a : ndarray A) :
  wf a -> shape a <> [] ->
  getitem a (Slice None None None) = Ok a.
Proof.
  unfold wf, size, getitem. intros W Hs.
  destruct a as [s l]. simpl in *.
  destruct s as [|n rest]; [contradiction|]. simpl in W.
  unfold slice_indices, slice_length. simpl.
  destruct (Z.ltb_spec 0 (Z.of_nat n)) as [Hn|Hn]; simpl.
  - replace (Z.to_nat ((Z.of_nat n - 0 - 1) / 1 + 1)) with n
      by (rewrite Z.div_1_r; lia).
    f_equal. f_equal.
    transitivity (flat_map (fun i => row (size_of rest) i l) (seq 0 n));
      [|apply rows_concat; exact W].
    apply flat_map_ext. intro i. f_equal. lia.
  - assert (n = 0%nat) by lia. subst n. simpl in W.
    destruct l; [reflexivity | discriminate].
Qed.

(** X11: [field[:]] is the field itself. *)
Theorem getitem_full_slice (self : ReadingField) :
  well_formed self ->
  shape (values self) <> [] ->
  __getitem__ self (Slice None None None) = Ok self.
Proof.
  intros ((Hvm & Hmo) & Wv & Wm & Wo) Hs. unfold __getitem__.
  rewrite (full_slice _ Wv Hs).
  rewrite (full_slice _ Wm) by congruence.
  rewrite (full_slice _ Wo) by congruence.
  simpl. now destruct self.
Qed.

Lemma getitem_full_slice_witness :
  well_formed example_field
  /\ __getitem__ example_field (Slice None None None) = Ok example_field.
Proof.
  assert (W : well_formed example_field) by (repeat split).
  split; [exact W|].
  apply (getitem_full_slice example_field W). discriminate.
Defined.

(** *** What indexing selects *)

Lemma flat_map_ext_in {A B : Type} (f g : A -> list B) (l : list A) :
  (forall x, In x l -> f x = g x) -> flat_map f l = flat_map g l.
Proof.
  induction l as [|x l IH]; intro H; simpl; [reflexivity|].
  rewrite (H x) by now left. f_equal. apply IH.
  intros y Hy. apply H. now right.
Qed.

Lemma combine_map_same {A B C : Type} (f : A -> B) (g : A -> C)
      (l : list A) :
  combine (map f l) (map g l) = map (fun x => (f x, g x)) l.
Proof. induction l as [|x l IH]; simpl; [reflexivity|now rewrite IH]. Qed.

(** The entries of [a[k]] are entries of [a], taken at positions that
    the shape and the key fix. *)
Lemma getitem_gather {A : Type} (d : A) (a a' : ndarray A) (k : key) :
  wf a -> getitem a k = Ok a' ->
  data a' = map (fun p => nth p (data a) d) (positions (shape a) k)
  /\ Forall (fun p => (p < length (data a))%nat) (positions (shape a) k).
Proof.
  unfold wf, size, getitem, positions. intro W.
  destruct (shape a) as [|n rest]; [discriminate|]. simpl in W.
  set (stride := size_of rest) in *.
  destruct k as [i|start stop step].
  - destruct ((- Z.of_nat n <=? i) && (i <? Z.of_nat n))%Z eqn:Hr;
      [|discriminate].
    apply index_in_range in Hr.
    intro E. injection E as <-. simpl.
    set (j := Z.to_nat (if (i <? 0)%Z then (i + Z.of_nat n)%Z else i)).
    assert (Hj : (j < n)%nat)
      by (unfold j; destruct (Z.ltb_spec i 0); lia).
    split.
    + unfold row. apply firstn_skipn_gather. nia.
    + apply Forall_forall. intros p Hp. apply in_seq in Hp. nia.
  - destruct (slice_indices (Z.of_nat n) start stop step)
      as [[[st sp] stp]|e] eqn:Es; simpl; [|discriminate].
    intro E. injection E as <-. simpl.
    apply slice_indices_range in Es; [|lia].
    destruct Es as [Hstp Hr].
    assert (Hidx : forall i, In i (seq 0 (slice_length st sp stp)) ->
                   (Z.to_nat (st + Z.of_nat i * stp) < n)%nat).
    { intros i Hi. apply in_seq in Hi.
      pose proof (slice_index_in_range _ _ _ _ i Hstp Hr ltac:(lia)).
      lia. }
    split.
    + rewrite map_flat_map. apply flat_map_ext_in. intros i Hi.
      unfold row. apply firstn_skipn_gather.
      specialize (Hidx i Hi). nia.
    + apply Forall_forall. intros p Hp.
      apply in_flat_map in Hp. destruct Hp as (i & Hi & Hp).
      apply in_seq in Hp. specialize (Hidx i Hi). nia.
Qed.

Lemma in_unblocked (self : ReadingField) (p : nat) :
  well_formed self ->
  (p < length (data (values self)))%nat ->
  nth p (data (blocked_by_me self)) false = false ->
  nth p (data (blocked_by_others self)) false = false ->
  In (nth p (data (values self)) 0%R) (unblocked self).
Proof.
  intros ((Hvm & Hmo) & Wv & Wm & Wo) Hp Hm Ho.
  unfold wf, size in *. rewrite <- Hmo, <- Hvm in Wo. rewrite <- Hvm in Wm.
  unfold unblocked.
  apply in_map_iff.
  exists (nth p (data (values self)) 0%R, (false, false)).
  split; [reflexivity|].
  apply filter_In. split; [|reflexivity].
  rewrite <- Hm at 1. rewrite <- Ho.
  rewrite <- (combine_nth (data (blocked_by_me self))
                          (data (blocked_by_others self))) by congruence.
  rewrite <- combine_nth
    by (rewrite length_combine; rewrite Wm, Wo, Wv; lia).
  apply nth_In. rewrite !length_combine. rewrite Wm, Wo, Wv in *. lia.
Qed.

(** X12: Indexing keeps a field well formed and only restricts what is
    visible: every unblocked value of [field[k]] is an unblocked value
    of [field].  Hence the minimum
    cannot fall and the maximum cannot rise, and a field in which every
    entry is blocked stays so. *)
Theorem getitem_restricts (self r : ReadingField) (k : key) :
  well_formed self ->
  __getitem__ self k = Ok r ->
  well_formed r
  /\ (forall x, In x (unblocked r) -> In x (unblocked self))
  /\ (forall a b, min self = Ok a -> min r = Ok b -> (a <= b)%R)
  /\ (forall a b, max self = Ok a -> max r = Ok b -> (b <= a)%R)
  /\ (all_blocked self -> all_blocked r).
Proof.
  intros W E.
  pose proof (ReadingFacts.getitem_well_formed self r k W E) as Wr.
  assert (Hsub : forall x, In x (unblocked r) -> In x (unblocked self)).
  { pose proof W as ((Hvm & Hmo) & Wv & Wm & Wo).
    unfold __getitem__ in E.
    destruct (getitem (values self) k) as [v|] eqn:Ev; [|discriminate].
    destruct (getitem (blocked_by_me self) k) as [m|] eqn:Em;
      [|discriminate].
    destruct (getitem (blocked_by_others self) k) as [o|] eqn:Eo;
      [|discriminate].
    simpl in E. injection E as <-.
    destruct (getitem_gather 0%R _ _ _ Wv Ev) as [Dv Pv].
    destruct (getitem_gather false _ _ _ Wm Em) as [Dm _].
    destruct (getitem_gather false _ _ _ Wo Eo) as [Do _].
    rewrite <- Hmo, <- Hvm in Do. rewrite <- Hvm in Dm.
    intros x Hx. unfold unblocked in Hx. simpl in Hx.
    rewrite Dv, Dm, Do in Hx.
    rewrite (combine_map_same
               (fun p => nth p (data (blocked_by_me self)) false)) in Hx.
    rewrite combine_map_same in Hx.
    apply in_map_iff in Hx. destruct Hx as ([y [bm bo]] & <- & Hy).
    apply filter_In in Hy. destruct Hy as [Hy Hb].
    apply in_map_iff in Hy. destruct Hy as (p & Hp & Hin).
    injection Hp as <- <- <-. simpl in Hb.
    apply andb_prop in Hb. destruct Hb as [Hb1 Hb2].
    apply negb_true_iff in Hb1, Hb2.
    rewrite Forall_forall in Pv.
    apply (in_unblocked self p W (Pv p Hin) Hb1 Hb2). }
  split; [exact Wr|]. split; [exact Hsub|].
  pose proof (proj1 W) as Ha. pose proof (proj1 Wr) as Har.
  rewrite (ReadingFacts.min_unblocked self Ha),
    (ReadingFacts.max_unblocked self Ha),
    (ReadingFacts.min_unblocked r Har),
    (ReadingFacts.max_unblocked r Har).
  split; [|split].
  - intros a b Hmin Hminr.
    destruct (unblocked self) as [|x l]; [discriminate|].
    destruct (unblocked r) as [|y l']; [discriminate|].
    injection Hmin as <-. injection Hminr as <-.
    apply (proj2 (ReadingFacts.fold_left_Rmin_minimum l x)).
    apply Hsub. apply (proj1 (ReadingFacts.fold_left_Rmin_minimum l' y)).
  - intros a b Hmax Hmaxr.
    destruct (unblocked self) as [|x l]; [discriminate|].
    destruct (unblocked r) as [|y l']; [discriminate|].
    injection Hmax as <-. injection Hmaxr as <-.
    apply (proj2 (ReadingFacts.fold_left_Rmax_maximum l x)).
    apply Hsub. apply (proj1 (ReadingFacts.fold_left_Rmax_maximum l' y)).
  - intro Hb.
    apply (ReadingFacts.unblocked_nil_iff self W) in Hb.
    apply (ReadingFacts.unblocked_nil_iff r Wr).
    destruct (unblocked r) as [|y l']; [reflexivity|].
    exfalso. rewrite Hb in Hsub. apply (Hsub y). now left.
Qed.

Lemma getitem_restricts_witness :
  well_formed example_field
  /\ exists r,
       __getitem__ example_field (Slice (Some 1%Z) None None) = Ok r
       /\ forall x, In x (unblocked r) -> In x (unblocked example_field).
Proof.
  assert (W : well_formed example_field) by (repeat split).
  split; [exact W|].
  eexists. split; [reflexivity|].
  exact (proj1 (proj2 (getitem_restricts example_field _
                         (Slice (Some 1%Z) None None) W eq_refl))).
Defined.

(** *** Reversing twice *)

Lemma row_flat_map {A : Type} (f : nat -> list A) (stride n a j : nat) :
  (forall i, In i (seq a n) -> length (f i) = stride) ->
  (j < n)%nat ->
  row stride j (flat_map f (seq a n)) = f (a + j)%nat.
Proof.
  revert a j. induction n as [|n IH]; intros a j Hlen Hj; [lia|].
  simpl. assert (Ha : length (f a) = stride) by (apply Hlen; now left).
  destruct j as [|j].
  - unfold row. simpl. rewrite Nat.add_0_r.
    now apply firstn_length_app.
  - unfold row. replace (S j * stride)%nat with (j * stride + stride)%nat
      by lia.
    rewrite <- skipn_skipn.
    rewrite (skipn_length_app stride (f a)) by exact Ha.
    replace (a + S j)%nat with (S a + j)%nat by lia.
    apply (IH (S a) j); [|lia].
    intros i Hi. apply Hlen. now right.
Qed.

Lemma reverse_slice {A : Type} (n : nat) (rest : list nat) (l : list A) :
  getitem (mkArray (n :: rest) l) (Slice None None (Some (-1)%Z))
  = Ok (mkArray (n :: rest)
          (flat_map
             (fun i => row (size_of rest)
                           (Z.to_nat (Z.of_nat n - 1 + Z.of_nat i * -1)) l)
             (seq 0 n))).
Proof.
  unfold getitem, slice_indices, slice_length. simpl.
  destruct (Z.ltb_spec (-1) (Z.of_nat n - 1)) as [Hn|Hn].
  - replace (Z.to_nat ((Z.of_nat n - 1 - -1 - 1) / 1 + 1)) with n
      by (rewrite Z.div_1_r; lia).
    reflexivity.
  - assert (n = 0%nat) by lia. subst n. reflexivity.
Qed.

Lemma reverse_twice {A : Type} (a : ndarray A) :
  wf a -> shape a <> [] ->
  exists a1, getitem a (Slice None None (Some (-1)%Z)) = Ok a1
             /\ shape a1 = shape a
             /\ getitem a1 (Slice None None (Some (-1)%Z)) = Ok a.
Proof.
  unfold wf, size. destruct a as [[|n rest] l]; simpl; intros W Hs;
    [contradiction|].
  eexists. split; [apply reverse_slice|]. split; [reflexivity|].
  rewrite reverse_slice. do 2 f_equal.
  set (stride := size_of rest) in *.
  set (g := fun i => Z.to_nat (Z.of_nat n - 1 + Z.of_nat i * -1)).
  assert (Hg : forall i, (i < n)%nat -> (g i < n)%nat /\ g (g i) = i)
    by (intros i Hi; unfold g; lia).
  transitivity (flat_map (fun i => row stride i l) (seq 0 n));
    [|now apply rows_concat].
  apply flat_map_ext_in. intros i Hi. apply in_seq in Hi.
  destruct (Hg i ltac:(lia)) as [Hgi Hggi].
  change (row stride (g i)
            (flat_map (fun k => row stride (g k) l) (seq 0 n))
          = row stride i l).
  rewrite (row_flat_map (fun k => row stride (g k) l) stride n 0 (g i)).
  - simpl. now rewrite Hggi.
  - intros k Hk. apply in_seq in Hk.
    apply row_length with (n := n); [exact W|].
    apply (Hg k). lia.
  - exact Hgi.
Qed.

(** X13: [field[::-1]] reverses the first axis, and reversing twice gives
    the field back. *)
Theorem getitem_reverse_twice (self : ReadingField) :
  well_formed self ->
  shape (values self) <> [] ->
  exists r, __getitem__ self (Slice None None (Some (-1)%Z)) = Ok r
            /\ __getitem__ r (Slice None None (Some (-1)%Z)) = Ok self.
Proof.
  intros ((Hvm & Hmo) & Wv & Wm & Wo) Hs.
  destruct (reverse_twice _ Wv Hs) as (v & Ev & _ & Ev').
  destruct (reverse_twice _ Wm ltac:(congruence)) as (m & Em & _ & Em').
  destruct (reverse_twice _ Wo ltac:(congruence)) as (o & Eo & _ & Eo').
  exists (mkReadingField (name self) (unit self) v m o).
  unfold __getitem__. rewrite Ev, Em, Eo. simpl.
  split; [reflexivity|].
  rewrite Ev', Em', Eo'. simpl. now destruct self.
Qed.

Lemma getitem_reverse_twice_witness :
  well_formed example_field
  /\ exists r,
       __getitem__ example_field (Slice None None (Some (-1)%Z)) = Ok r
       /\ values r = mkArray [4%nat] [4; 3; 2; 1]%R
       /\ __getitem__ r (Slice None None (Some (-1)%Z)) = Ok example_field.
Proof.
  assert (W : well_formed example_field) by (repeat split).
  split; [exact W|].
  destruct (getitem_reverse_twice example_field W ltac:(discriminate))
    as (r & E1 & E2).
  exists r. split; [exact E1|]. split; [|exact E2].
  cbv in E1. injection E1 as <-. reflexivity.
Defined.

End IndexingMore.

(** ** More facts on reading fields *)

Module ReadingMore.
Import NDArray NDArrayFacts Reading ReadingSpec ReadingFacts.

(** X14: [__repr__] succeeds exactly when [min] does, which is when [max]
    does; it then reports the values of [min] and [max], in this
    order, the name and the unit of the field, and the number of
    unblocked entries, which is at least one. *)
Theorem repr_min_max (self : ReadingField) :
  aligned self ->
  ((exists r, __repr__ self = Ok r) <-> (exists a, min self = Ok a))
  /\ ((exists a, min self = Ok a) <-> (exists b, max self = Ok b))
  /\ (forall a b, min self = Ok a -> max self = Ok b -> (a <= b)%R)
  /\ (forall r, __repr__ self = Ok r ->
        min self = Ok (repr_min r) /\ max self = Ok (repr_max r)
        /\ repr_name r = name self /\ repr_unit r = unit self
        /\ repr_events r = length (unblocked self)
        /\ (1 <= repr_events r)%nat).
Proof.
  intro Ha.
  rewrite (min_unblocked self Ha), (max_unblocked self Ha).
  unfold __repr__. rewrite (visible_unblocked self Ha).
  unfold bind, amin, amax, size. cbn [data shape size_of fold_right].
  destruct (unblocked self) as [|x l].
  - split; [split; intros [? H]; discriminate|].
    split; [split; intros [? H]; discriminate|].
    split; [discriminate | discriminate].
  - split; [split; intros _; eexists; reflexivity|].
    split; [split; intros _; eexists; reflexivity|].
    split.
    + intros a b Hmin Hmax. injection Hmin as <-. injection Hmax as <-.
      pose proof (fold_left_Rmin_le l x).
      pose proof (fold_left_Rmax_ge l x). lra.
    + intros r Hr. injection Hr as <-. cbn.
      repeat split; try reflexivity; lia.
Qed.

Lemma repr_min_max_witness :
  aligned example_field
  /\ exists r, __repr__ example_field = Ok r
               /\ min example_field = Ok (repr_min r)
               /\ max example_field = Ok (repr_max r)
               /\ repr_events r = 2%nat.
Proof.
  assert (Ha : aligned example_field) by (split; reflexivity).
  split; [exact Ha|].
  destruct (repr_min_max example_field Ha) as (_ & _ & _ & H).
  eexists. split; [reflexivity|].
  destruct (H _ eq_refl) as (H1 & H2 & _ & _ & H5 & _).
  split; [exact H1|]. split; [exact H2|]. exact H5.
Defined.

(** *** The fields of one reading *)

Lemma field_masks (d : NeutronData) (f : ReadingField) :
  In f (fields d) ->
  blocked_by_me f = data_blocked_by_me d
  /\ blocked_by_others f = data_blocked_by_others d.
Proof.
  intros [<-|[<-|[<-|[<-|[]]]]]; split; reflexivity.
Qed.

Lemma unblocked_length (f : ReadingField) :
  well_formed f ->
  (length (unblocked f)
   + length (filter (fun mo => fst mo || snd mo)
               (combine (data (blocked_by_me f))
                        (data (blocked_by_others f))))
   = length (data (blocked_by_me f)))%nat.
Proof.
  intros ((Hvm & Hmo) & Wv & Wm & Wo).
  unfold wf, size in *. rewrite <- Hmo, <- Hvm in Wo. rewrite <- Hvm in Wm.
  unfold unblocked. rewrite length_map.
  rewrite count_partition by congruence. congruence.
Qed.

(** X15: The four fields of a reading share its two masks: they have the
    same number of unblocked entries, and [min] (or [max], or
    [__repr__]) fails on one of them exactly when it fails on every
    other. *)
Theorem fields_share_masks (d : NeutronData) (f g : ReadingField) :
  data_aligned d ->
  In f (fields d) -> In g (fields d) ->
  length (unblocked f) = length (unblocked g)
  /\ ((exists e, min f = Raise e) <-> (exists e, min g = Raise e))
  /\ ((exists e, max f = Raise e) <-> (exists e, max g = Raise e)).
Proof.
  intros Hd Hf Hg. unfold data_aligned in Hd. rewrite Forall_forall in Hd.
  pose proof (Hd f Hf) as Wf. pose proof (Hd g Hg) as Wg.
  assert (Hlen : length (unblocked f) = length (unblocked g)).
  { pose proof (unblocked_length f Wf) as Lf.
    pose proof (unblocked_length g Wg) as Lg.
    destruct (field_masks d f Hf) as [Ef1 Ef2].
    destruct (field_masks d g Hg) as [Eg1 Eg2].
    rewrite Ef1, Ef2 in Lf. rewrite Eg1, Eg2 in Lg. lia. }
  split; [exact Hlen|].
  rewrite (min_unblocked f (proj1 Wf)), (min_unblocked g (proj1 Wg)),
    (max_unblocked f (proj1 Wf)), (max_unblocked g (proj1 Wg)).
  destruct (unblocked f) as [|x l], (unblocked g) as [|y l'];
    try discriminate.
  - split; split; intros _; now exists ValueError.
  - split; split; intros [e H]; discriminate.
Qed.

Lemma fields_share_masks_witness :
  let d := cr_data twice_blocked in
  data_aligned d
  /\ length (unblocked (reading_toa d))
     = length (unblocked (reading_speed d)).
Proof.
  intro d.
  assert (Hd : data_aligned d) by (repeat constructor).
  split; [exact Hd|].
  apply (fields_share_masks d (reading_toa d) (reading_speed d) Hd).
  - now left.
  - now right; right; right; left.
Defined.

(** *** The summary of a chopper reading *)

Lemma sum_inclusion_exclusion (m o : list bool) :
  length m = length o ->
  (length (filter (fun b => b) m) + length (filter (fun b => b) o)
   = length (filter (fun mo => fst mo || snd mo) (combine m o))
     + length (filter (fun mo => fst mo && snd mo) (combine m o)))%nat.
Proof.
  revert o. induction m as [|a m IH]; intros [|b o] H;
    simpl in *; try discriminate; [reflexivity|].
  specialize (IH o ltac:(lia)).
  destruct a, b; simpl; lia.
Qed.

(** X16: [_repr_stats] counts a neutron that both masks block twice: its
    blocked count is the size of the union of the masks plus the size
    of their intersection, and its visible count falls short of the
    events that the fields report by the size of the intersection.
    The two summaries agree exactly when no neutron is blocked by
    both masks. *)
Theorem repr_stats_inclusion_exclusion (self : ChopperReading) :
  data_well_formed (cr_data self) ->
  let d := cr_data self in
  stats_blocked self = (union_count d + intersection_count d)%Z
  /\ stats_visible self
     = (data_size d - union_count d - intersection_count d)%Z
  /\ (forall r, __repr__ (reading_toa d) = Ok r ->
        stats_visible self
        = (Z.of_nat (repr_events r) - intersection_count d)%Z)
  /\ (stats_blocked self = union_count d <-> intersection_count d = 0%Z).
Proof.
  intros W d.
  assert (Hb : stats_blocked self
               = (union_count d + intersection_count d)%Z).
  { pose proof W as ((Hvm & Hmo) & Wv & Wm & Wo).
    unfold wf, size in Wm, Wo. simpl in Hmo, Wm, Wo.
    assert (Hl : length (data (data_blocked_by_me d))
                 = length (data (data_blocked_by_others d)))
      by (unfold d; congruence).
    pose proof (sum_inclusion_exclusion _ _ Hl) as H.
    unfold stats_blocked, sum, union_count, intersection_count.
    fold d. lia. }
  split; [exact Hb|].
  split; [unfold stats_visible; fold d; lia|].
  split; [|lia].
  intros r Hr. pose proof (field_events_union d r W Hr).
  unfold stats_visible. fold d. lia.
Qed.

Lemma repr_stats_inclusion_exclusion_witness :
  data_well_formed (cr_data twice_blocked)
  /\ stats_blocked twice_blocked
     = (union_count (cr_data twice_blocked)
        + intersection_count (cr_data twice_blocked))%Z.
Proof.
  assert (W : data_well_formed (cr_data twice_blocked))
    by (repeat split).
  split; [exact W|].
  exact (proj1 (repr_stats_inclusion_exclusion twice_blocked W)).
Defined.

End ReadingMore.

(** ** Facts on the choppers of the dashboard *)

Module DashboardFacts.
Import Chopper Dashboard ConstructionFacts.

Section Run.
Variables strict_empty strict_shapes : bool.
Variable float : string -> result R.

Local Abbreviation floats := (Dashboard.floats float).
Local Abbreviation chopper_of :=
  (Dashboard.chopper_of strict_empty strict_shapes float).
Local Abbreviation run_choppers :=
  (Dashboard.run_choppers strict_empty strict_shapes float).

Lemma comprehension_done {A B : Type} (f : A -> outcome B)
      (l : list A) (ys : list B) :
  comprehension f l = Done ys <-> Forall2 (fun x y => f x = Done y) l ys.
Proof.
  revert ys. induction l as [|x l IH]; intro ys; simpl.
  - split.
    + intro H. injection H as <-. constructor.
    + intro H. inversion H. reflexivity.
  - destruct (f x) as [y|e] eqn:Ex; simpl.
    + destruct (comprehension f l) as [zs|e] eqn:El; simpl.
      * split.
        -- intro H. injection H as <-.
           constructor; [exact Ex | now apply IH].
        -- intro H. inversion H as [|x' y' l' ys' Hxy Hrest]; subst.
           apply IH in Hrest. congruence.
      * split; [discriminate|].
        intro H. inversion H as [|x' y' l' ys' Hxy Hrest]; subst.
        apply IH in Hrest. discriminate.
    + split; [discriminate|].
      intro H. inversion H as [|x' y' l' ys' Hxy Hrest]; subst.
      congruence.
Qed.

(** The chopper that [run] builds from one widget. *)
Lemma chopper_of_done (ch : ChopperWidget) (c : Chopper) :
  chopper_of ch = Done c
  <-> exists os cs d,
        floats (open_widget ch) = Done os
        /\ floats (close_widget ch) = Done cs
        /\ direction_of (direction_widget ch) = Done d
        /\ 0 < frequency_widget ch
        /\ c = mkChopper (frequency_widget ch) (distance_widget ch)
                         (name_widget ch) (phase_widget ch) os cs d.
Proof.
  unfold Dashboard.chopper_of.
  destruct (floats (open_widget ch)) as [os|e1]; simpl.
  2: { split; [discriminate|]. intros (? & ? & ? & H & _). discriminate. }
  destruct (floats (close_widget ch)) as [cs|e2]; simpl.
  2: { split; [discriminate|].
       intros (? & ? & ? & _ & H & _). discriminate. }
  destruct (direction_of (direction_widget ch)) as [d|e3]; simpl.
  2: { split; [discriminate|].
       intros (? & ? & ? & _ & _ & H & _). discriminate. }
  destruct (Rlt_dec 0 (frequency_widget ch)) as [Hf|Hf].
  - rewrite (init_open_close strict_empty strict_shapes _ _ _ _
               (mkArg 0 os) (mkArg 1 cs) d Hf). simpl.
    split.
    + intro H. injection H as <-. exists os, cs, d. repeat split; auto.
    + intros (os' & cs' & d' & H1 & H2 & H3 & _ & ->).
      injection H1 as <-. injection H2 as <-. injection H3 as <-.
      reflexivity.
  - unfold __init__.
    destruct (Rle_dec (frequency_widget ch) 0) as [|Hn]; [|lra]. simpl.
    split; [discriminate|].
    intros (? & ? & ? & _ & _ & _ & H & _). lra.
Qed.

(** X17: [run] builds one chopper per enabled widget, in their order, from
    the numbers of the two texts, however many and even when [open]
    and [close] differ in number; it fails only on a text that holds
    something else than numbers, a direction that is not one of the
    two, or a frequency that is not positive.  Disabled widgets are
    not looked at. *)
Theorem run_choppers_done (children : list ChopperWidget)
        (cs : list Chopper) :
  run_choppers children = Done cs
  <-> Forall2
        (fun ch c =>
           exists os cl d,
             floats (open_widget ch) = Done os
             /\ floats (close_widget ch) = Done cl
             /\ direction_of (direction_widget ch) = Done d
             /\ 0 < frequency_widget ch
             /\ c = mkChopper (frequency_widget ch) (distance_widget ch)
                              (name_widget ch) (phase_widget ch) os cl d)
        (filter enabled_widget children) cs.
Proof.
  unfold Dashboard.run_choppers. rewrite comprehension_done.
  split; intro H; (eapply Forall2_impl; [|exact H]);
    intros ch c; apply chopper_of_done.
Qed.

(** X18: A disabled widget changes nothing, whatever it holds. *)
Theorem run_choppers_disabled (before after : list ChopperWidget)
        (ch : ChopperWidget) :
  enabled_widget ch = false ->
  run_choppers (before ++ ch :: after) = run_choppers (before ++ after).
Proof.
  intro H. unfold Dashboard.run_choppers.
  rewrite !filter_app. simpl. now rewrite H.
Qed.

End Run.

Lemma run_choppers_disabled_witness :
  let float := fun _ : string => Raise ValueError in
  let off := mkChopperWidget 0 "" "x" 0 0 "" "sideways" false in
  let on := mkChopperWidget 14 "0,90" "10,120" 0 6 "wfm" "clockwise" true in
  enabled_widget off = false
  /\ run_choppers true true float ([on] ++ off :: [])
     = run_choppers true true float ([on] ++ []).
Proof.
  intros float off on. split; [reflexivity|].
  exact (run_choppers_disabled true true float [on] [] off eq_refl).
Defined.

End DashboardFacts.

(** ** The gating windows in binary64 *)

Module Chopper64Facts.
Import Chopper Chopper64 NDArray.
Open Scope float_scope.

Lemma nth_row {A : Type} (d : A) (stride i j : nat) (l : list A) :
  (j < stride)%nat ->
  nth j (row stride i l) d = nth (i * stride + j) l d.
Proof.
  intro Hj. unfold row. rewrite nth_firstn.
  replace (j <? stride)%nat with true by (symmetry; now apply Nat.ltb_lt).
  apply nth_skipn.
Qed.

(** [ceil] is the ceiling: for the number [v * 2^e] with [e < 0], it is
    the integer [z] with [(z - 1) * 2^-e < v <= z * 2^-e]; for
    [0 <= e] the number is the integer [v * 2^e] itself. *)
Lemma ceil_spec (x : float) (s : bool) (m : positive) (e z : Z) :
  Prim2SF x = S754_finite s m e ->
  ceil x = Some z ->
  let v := (if s then - Zpos m else Zpos m)%Z in
  if (0 <=? e)%Z then z = (v * 2 ^ e)%Z
  else ((z - 1) * 2 ^ (- e) < v <= z * 2 ^ (- e))%Z.
Proof.
  intros Hx Hz v. unfold ceil in Hz. rewrite Hx in Hz.
  destruct (0 <=? e)%Z eqn:He.
  - injection Hz as <-. unfold v. destruct s; [symmetry; apply Z.mul_opp_l | reflexivity].
  - apply Z.leb_gt in He.
    assert (Hd : (0 < 2 ^ (- e))%Z) by (apply Z.pow_pos_nonneg; lia).
    injection Hz as <-. unfold v. destruct s.
    + pose proof (Z.mul_div_le (Zpos m) _ Hd).
      pose proof (Z.mul_succ_div_gt (Zpos m) _ Hd). nia.
    + pose proof (Z.mul_div_le (- Zpos m) _ Hd).
      pose proof (Z.mul_succ_div_gt (- Zpos m) _ Hd). nia.
Qed.



Lemma nrot_ceil (self : Chopper) (time_limit : float) (z : Z) :
  ceil (time_limit * millionth * frequency self) = Some z ->
  nrot self time_limit = Some (Z.max z 1).
Proof. intro Hz. unfold nrot. now rewrite Hz. Qed.



Lemma mirrored_angles_length (self : Chopper) :
  length (open self) = length (close self) ->
  length (fst (cutout_angles self)) = length (open self)
  /\ length (snd (cutout_angles self)) = length (open self).
Proof.
  intro H. unfold cutout_angles.
  destruct (Direction_eqb (direction self) AntiClockwise); simpl;
    rewrite ?length_rev, !length_map; auto.
Qed.

Lemma open_close_times_eq (self : Chopper) (time_limit : float) (z : Z) :
  ceil (time_limit * millionth * frequency self) = Some z ->
  open_close_times self time_limit
  = Some (to_times self (phases self (Z.max z 1))
                   (fst (cutout_angles self)),
          to_times self (phases self (Z.max z 1))
                   (snd (cutout_angles self))).
Proof.
  intro Hz. unfold open_close_times. rewrite (nrot_ceil _ _ _ Hz).
  now destruct (cutout_angles self).
Qed.





(** In binary64 too the window sets of the two directions differ: at
    100 Hz with one cutout from -18 to 18 degrees, no anti-clockwise
    window opens when the first clockwise window does. *)
Lemma first_window_unmatched :
  match open_close_times (wide_cutout Clockwise) 0,
        open_close_times (wide_cutout AntiClockwise) 0 with
  | Some (opens, _), Some (opens', _) =>
      existsb (PrimFloat.eqb (nth 0 opens 0)) opens' = false
  | _, _ => False
  end.
Proof. vm_compute. reflexivity. Qed.

(** In binary64 the agreement between the two directions of a symmetric
    cutout is only up to rounding: at 14 Hz the first anti-clockwise
    window opens later than the second clockwise one. *)
Lemma symmetric_windows_round :
  match open_close_times (symmetric_cutout Clockwise) 0,
        open_close_times (symmetric_cutout AntiClockwise) 0 with
  | Some (opens, _), Some (opens', _) =>
      PrimFloat.ltb (nth 1 opens 0) (nth 0 opens' 0) = true
  | _, _ => False
  end.
Proof. vm_compute. reflexivity. Qed.

(** *** The order of the gating windows *)

(** The angle at which cutout [j] opens and closes, as
    [open_close_times] has them after mirroring. *)
Lemma cutout_angles_nth (self : Chopper) (j : nat) :
  length (open self) = length (close self) ->
  (j < length (open self))%nat ->
  let n := length (open self) in
  match direction self with
  | CLOCKWISE =>
      nth j (fst (cutout_angles self)) 0 = deg2rad (nth j (open self) 0)
      /\ nth j (snd (cutout_angles self)) 0
         = deg2rad (nth j (close self) 0)
  | ANTICLOCKWISE =>
      nth j (fst (cutout_angles self)) 0
      = 2 * pi - deg2rad (nth (n - S j) (close self) 0)
      /\ nth j (snd (cutout_angles self)) 0
         = 2 * pi - deg2rad (nth (n - S j) (open self) 0)
  end.
Proof.
  intros Hlen Hj n. unfold cutout_angles.
  destruct (direction self); simpl.
  - split.
    + rewrite (nth_indep _ 0 (deg2rad 0)) by (now rewrite length_map).
      apply map_nth.
    + rewrite (nth_indep _ 0 (deg2rad 0))
        by (rewrite length_map; now rewrite <- Hlen).
      apply map_nth.
  - split.
    + rewrite rev_nth by (rewrite !length_map; now rewrite <- Hlen).
      rewrite !length_map, <- Hlen.
      rewrite (nth_indep _ 0 (2 * pi - deg2rad 0))
        by (rewrite !length_map; lia).
      rewrite (map_nth (fun c => 2 * pi - c)).
      now rewrite (map_nth deg2rad).
    + rewrite rev_nth by (now rewrite !length_map).
      rewrite !length_map.
      rewrite (nth_indep _ 0 (2 * pi - deg2rad 0))
        by (rewrite !length_map; lia).
      rewrite (map_nth (fun c => 2 * pi - c)).
      now rewrite (map_nth deg2rad).
Qed.

Lemma to_times_entry (self : Chopper) (n : Z) (angles : list float)
      (r j : nat) :
  (r < Z.to_nat (n + 1))%nat ->
  (j < length angles)%nat ->
  nth (r * length angles + j) (to_times self (phases self n) angles) 0
  = (of_int ((Z.of_nat r - 1) * 2) * pi + deg2rad (phase self)
     + nth j angles 0) * million / omega self.
Proof.
  intros Hr Hj. unfold to_times, outer_add_ravel, phases, arange.
  rewrite map_flat_map, !flat_map_map.
  rewrite <- (nth_row 0 (length angles) r j) by exact Hj.
  replace (Z.to_nat (n - -1)) with (Z.to_nat (n + 1)) by lia.
  rewrite (IndexingMore.row_flat_map _ (length angles) _ 0 r);
    [|intros i _; now rewrite !length_map | exact Hr].
  cbn beta. rewrite Nat.add_0_l, map_map.
  replace (-1 + Z.of_nat r)%Z with (Z.of_nat r - 1)%Z by lia.
  set (f := fun a : float => _).
  rewrite (nth_indep _ 0 (f 0)) by (now rewrite length_map).
  rewrite (map_nth f). reflexivity.
Qed.

(** X6: The windows are grouped by rotation, the cutouts in their order of
    passage within each.  With [n] cutouts and [math.ceil] giving [z],
    entry [r * n + j] of the opening times, for [r <= max(z, 1)] and
    [j < n], is [(2 * (r - 1) * pi + deg2rad(phase) + a) * 1e6 / omega]
    evaluated in binary64 from left to right, where [a] is the opening
    angle of cutout [j]: [deg2rad(open[j])] for a clockwise chopper and
    [2 * pi - deg2rad(close[n - 1 - j])] for an anti-clockwise one.  The
    closing times are the like, with [open] and [close] exchanged. *)
Theorem open_close_times_entry (self : Chopper) (time_limit : float)
        (z : Z) (r j : nat) :
  length (open self) = length (close self) ->
  ceil (time_limit * millionth * frequency self) = Some z ->
  (r < Z.to_nat (Z.max z 1 + 1))%nat ->
  (j < length (open self))%nat ->
  let n := length (open self) in
  let time a :=
    (of_int ((Z.of_nat r - 1) * 2) * pi + deg2rad (phase self) + a)
    * million / omega self in
  exists opens closes : list float,
    open_close_times self time_limit = Some (opens, closes)
    /\ match direction self with
       | CLOCKWISE =>
           nth (r * n + j) opens 0 = time (deg2rad (nth j (open self) 0))
           /\ nth (r * n + j) closes 0
              = time (deg2rad (nth j (close self) 0))
       | ANTICLOCKWISE =>
           nth (r * n + j) opens 0
           = time (2 * pi - deg2rad (nth (n - S j) (close self) 0))
           /\ nth (r * n + j) closes 0
              = time (2 * pi - deg2rad (nth (n - S j) (open self) 0))
       end.
Proof.
  intros Hlen Hz Hr Hj n time.
  pose proof (mirrored_angles_length self Hlen) as [Ho Hc].
  pose proof (cutout_angles_nth self j Hlen Hj) as Hnth.
  do 2 eexists. split; [exact (open_close_times_eq self time_limit z Hz)|].
  assert (Hopens :
    nth (r * n + j)
        (to_times self (phases self (Z.max z 1)) (fst (cutout_angles self)))
        0
    = time (nth j (fst (cutout_angles self)) 0)).
  { unfold n. rewrite <- Ho. apply to_times_entry; [exact Hr|].
    now rewrite Ho. }
  assert (Hcloses :
    nth (r * n + j)
        (to_times self (phases self (Z.max z 1)) (snd (cutout_angles self)))
        0
    = time (nth j (snd (cutout_angles self)) 0)).
  { unfold n. rewrite <- Hc. apply to_times_entry; [exact Hr|].
    now rewrite Hc. }
  rewrite Hopens, Hcloses.
  destruct (direction self); destruct Hnth as [-> ->]; split; reflexivity.
Qed.

Lemma open_close_times_entry_witness :
  exists opens closes : list float,
    open_close_times seven_hertz (3000000 / 7) = Some (opens, closes)
    /\ nth 5 opens 0
       = (of_int 2 * pi + deg2rad 0 + deg2rad 90) * million
         / omega seven_hertz
    /\ nth 5 closes 0
       = (of_int 2 * pi + deg2rad 0 + deg2rad 100) * million
         / omega seven_hertz.
Proof.
  assert (Hz : ceil (3000000 / 7 * millionth * frequency seven_hertz)
               = Some 3%Z) by (vm_compute; reflexivity).
  assert (Hr : (2 < Z.to_nat (Z.max 3 1 + 1))%nat) by (vm_compute; lia).
  assert (Hj : (1 < length (open seven_hertz))%nat) by (simpl; lia).
  exact (open_close_times_entry seven_hertz (3000000 / 7) 3%Z 2 1
                                eq_refl Hz Hr Hj).
Defined.

End Chopper64Facts.
